(** * The Dyna agent of [code/agent.py]

    A shallow embedding of [DynaAgent]: the value table, the experience
    buffer (world model), the recency counter, the history and the
    learn / plan / act loop of [simulate], followed by the properties the
    specification states about them.

    numpy's [float64] is Rocq's primitive binary64 [float]; numpy's [int64]
    is [Z] with the wrap-around written out; numpy arrays are lists, read with
    [!!] and written with [<[ i := x ]>], an index out of range being the
    [IndexError] of Python ([None]).  State and action indices are [nat]:
    the loop only ever produces non-negative ones. *)

From Stdlib Require Import ZArith Lia Floats.
From stdpp Require Import base option list.

(** ** The numpy functions the agent calls *)

Module Np.

(** [int64] arithmetic wraps around silently. *)
Definition int64_wrap (z : Z) : Z := ((z + 2 ^ 63) mod 2 ^ 64 - 2 ^ 63)%Z.

(** [int64 -> float64], rounding to nearest even. *)
Definition float_of_Z (z : Z) : float :=
  SF2Prim (binary_normalize prec emax z 0 false).

(** A float in a list that is assigned to a row of an [int] array: numpy
    converts it as [int(r)] does, truncating toward zero, and stores the
    integer in an [int64] entry.  nan raises [ValueError]; an infinity, and
    an integer that does not fit [int64], raise [OverflowError] ([None]).
    On a float that is finite and whose integer part fits, every conversion
    numpy has agrees with this one. *)
Definition Z_of_float (f : float) : option Z :=
  match Prim2SF f with
  | S754_zero _ => Some 0%Z
  | S754_finite sg m e =>
      let mag := if (0 <=? e)%Z then (Z.pos m * 2 ^ e)%Z
                 else (Z.pos m / 2 ^ (- e))%Z in
      let v := if sg then (- mag)%Z else mag in
      if ((- 2 ^ 63 <=? v)%Z && (v <? 2 ^ 63)%Z) then Some v else None
  | _ => None
  end.

(** A non-negative Python integer in such a list: it is stored as it is,
    and raises [OverflowError] when it does not fit [int64]. *)
Definition int64_of_nat (n : nat) : option nat :=
  if decide (Z.of_nat n < 2 ^ 63)%Z then Some n else None.

(** [np.maximum] on two scalars: nan propagates. *)
Definition maximum (a b : float) : float :=
  if (b <=? a)%float || is_nan a then a else b.

(** [np.max(row)]: [maximum.reduce]; a zero-size row raises. *)
Definition max (row : list float) : option float :=
  match row with
  | [] => None
  | x :: l => Some (fold_left maximum l x)
  end.

(** [np.argmax(row)]: the loop of numpy's [DOUBLE_argmax]; the first nan
    met is maximal and stops the scan. *)
Fixpoint argmax_from (mp : float) (max_ind i : nat) (l : list float) : nat :=
  match l with
  | [] => max_ind
  | x :: l' =>
      if negb (x <=? mp)%float
      then (if is_nan x then i else argmax_from x i (S i) l')
      else argmax_from mp max_ind (S i) l'
  end.

Definition argmax (row : list float) : option nat :=
  match row with
  | [] => None
  | x :: l => Some (if is_nan x then 0 else argmax_from x 0 1 l)
  end.

(** [np.sort]: ascending, nan last. *)
Definition sort_lt (a b : float) : bool :=
  (a <? b)%float || (is_nan b && negb (is_nan a)).

Fixpoint sort_insert (x : float) (l : list float) : list float :=
  match l with
  | [] => [x]
  | y :: l' => if sort_lt x y then x :: y :: l' else y :: sort_insert x l'
  end.

Definition sort (ar : list float) : list float :=
  foldr sort_insert [] ar.

(** [np.unique]: sort, then keep the first element and every element that
    differs ([!=]) from its predecessor in the sorted array.  (Recent numpy
    versions also merge the trailing nans into one; the agent only asks
    whether every kept value [==] a given one, which that does not
    change.) *)
Fixpoint drop_repeats (prev : float) (l : list float) : list float :=
  match l with
  | [] => []
  | x :: l' =>
      if negb (x =? prev)%float then x :: drop_repeats x l'
      else drop_repeats x l'
  end.

Definition unique (ar : list float) : list float :=
  match sort ar with
  | [] => []
  | x :: l => x :: drop_repeats x l
  end.

(** [np.cumsum]: [add.accumulate], strictly left to right. *)
Fixpoint cumsum_from (acc : float) (l : list float) : list float :=
  match l with
  | [] => []
  | x :: l' => let acc' := (acc + x)%float in acc' :: cumsum_from acc' l'
  end.

Definition cumsum (a : list float) : list float :=
  match a with
  | [] => []
  | x :: l => x :: cumsum_from x l
  end.

(** [M[i, j]] and [M[i, j] = v] on a two-dimensional array. *)
Definition get2 {A} (M : list (list A)) (i j : nat) : option A :=
  row ← M !! i; row !! j.

Definition set2 {A} (M : list (list A)) (i j : nat) (v : A)
  : option (list (list A)) :=
  row ← M !! i; _ ← row !! j; Some (<[i := <[j := v]> row]> M).

(** [np.zeros((n, m))]. *)
Definition full2 {A} (n m : nat) (v : A) : list (list A) :=
  replicate n (replicate m v).

End Np.

(** ** The random source

    [np.random] is a deterministic generator with a hidden state; the state
    is made explicit.  The three draws the agent uses, with what numpy
    guarantees of their results. *)

Class RandomState (G : Type) := {
  (** [np.random.choice(n)] for [n > 0]: uniform on [0, n). *)
  random_choice : nat → G → nat * G;
  (** [np.random.choice(np.arange(len(p)), p=p)]; raises when [p] is not a
      probability vector. *)
  random_choice_p : list float → G → option (nat * G);
  (** [np.random.randint(n)] for [n > 0]: uniform on [0, n). *)
  random_randint : nat → G → nat * G;
  random_choice_lt : ∀ n g, 0 < n → (random_choice n g).1 < n;
  random_choice_p_lt : ∀ p g i g',
      random_choice_p p g = Some (i, g') → i < length p;
  random_randint_lt : ∀ n g, 0 < n → (random_randint n g).1 < n
}.

(** ** The environment ([environment.py] is not part of the sources: its
    fields are taken as given, as the environment contract lists them) *)

Record Environment := {
  num_states : nat;
  num_actions : nat;
  start_state : nat;
  goal_state : nat;
  (** transition tensor [T[s, a, s']] *)
  T : list (list (list float));
  (** reward table [R[s, a]] *)
  R : list (list float)
}.

(** ** The agent's learned state *)

(** A row [[s, a, r, s1]] of the experience buffer, an [int] array. *)
Abbreviation BufferRow := (nat * nat * Z * nat)%type.

(** A row [[s, a, r, s1]] of the history.  numpy keeps the four in one
    dtype; the indices are small integers, exact in either dtype. *)
Abbreviation HistoryRow := (nat * nat * float * nat)%type.

Record Agent := {
  Q : list (list float);
  experience_buffer : list BufferRow;
  action_count : list (list Z);
  history : list HistoryRow;
  action_taken : list (list float);
  (** [self.s], the current real state *)
  self_s : nat
}.

Definition with_Q (ag : Agent) (q : list (list float)) : Agent :=
  {| Q := q; experience_buffer := experience_buffer ag;
     action_count := action_count ag; history := history ag;
     action_taken := action_taken ag; self_s := self_s ag |}.

Definition with_experience_buffer (ag : Agent) (b : list BufferRow) : Agent :=
  {| Q := Q ag; experience_buffer := b;
     action_count := action_count ag; history := history ag;
     action_taken := action_taken ag; self_s := self_s ag |}.

Definition with_action_count (ag : Agent) (c : list (list Z)) : Agent :=
  {| Q := Q ag; experience_buffer := experience_buffer ag;
     action_count := c; history := history ag;
     action_taken := action_taken ag; self_s := self_s ag |}.

Definition with_history (ag : Agent) (h : list HistoryRow) : Agent :=
  {| Q := Q ag; experience_buffer := experience_buffer ag;
     action_count := action_count ag; history := h;
     action_taken := action_taken ag; self_s := self_s ag |}.

Definition with_s (ag : Agent) (s : nat) : Agent :=
  {| Q := Q ag; experience_buffer := experience_buffer ag;
     action_count := action_count ag; history := history ag;
     action_taken := action_taken ag; self_s := s |}.

(** [for i in l: body(i)] on a state that an exception ([None]) abandons. *)
Fixpoint for_each {St} (l : list nat) (body : nat → St → option St) (st : St)
  : option St :=
  match l with
  | [] => Some st
  | i :: l' => st' ← body i st; for_each l' body st'
  end.

(** [for i in range(n): body(i)]. *)
Definition for_range {St} (n : nat) (body : nat → St → option St) (st : St)
  : option St :=
  for_each (seq 0 n) body st.

(** [arr[i] = v] on a one-dimensional array. *)
Definition store {A} (arr : list A) (i : nat) (v : A) : option (list A) :=
  if decide (i < length arr) then Some (<[i := v]> arr) else None.

(** ** Examples of random sources, environments and agents

    A random source that replays a tape of raw draws, reduced to the range
    asked for; a weighted draw picks among the outcomes of positive
    probability and raises when there is none. *)

Module Tape.

Definition draw (n : nat) (g : list nat) : nat * list nat :=
  match g with
  | [] => (0, [])
  | x :: g' => (x mod n, g')
  end.

Fixpoint support_from (i : nat) (p : list float) : list nat :=
  match p with
  | [] => []
  | x :: p' =>
      if (0 <? x)%float then i :: support_from (S i) p'
      else support_from (S i) p'
  end.

Definition draw_p (p : list float) (g : list nat) : option (nat * list nat) :=
  match support_from 0 p with
  | [] => None
  | i0 :: sup =>
      Some match g with
           | [] => (i0, [])
           | x :: g' => (nth (x mod S (length sup)) (i0 :: sup) i0, g')
           end
  end.

End Tape.

(** Two environments for the examples.  [two_state]: one action, which
    always leads from state 0 to the goal state 1 with reward 1.
    [corridor]: three states in a row, the goal at the far end; action 0
    stays and pays one half in state 0, action 1 moves right, and slips one
    time in eight in state 0. *)
Definition two_state : Environment := {|
  num_states := 2; num_actions := 1; start_state := 0; goal_state := 1;
  T := [ [ [0; 1] ]; [ [1; 0] ] ]%float;
  R := [ [1]; [0] ]%float
|}.

Definition corridor : Environment := {|
  num_states := 3; num_actions := 2; start_state := 0; goal_state := 2;
  T := [ [ [1; 0; 0]; [0.125; 0.875; 0] ];
         [ [0; 1; 0]; [0; 0; 1] ];
         [ [0; 0; 1]; [0; 0; 1] ] ]%float;
  R := [ [0.5; 0]; [0; 1]; [0; 0] ]%float
|}.

(** An agent before any run, and the agents a reset leaves in the two
    environments. *)
Definition blank : Agent := {|
  Q := []; experience_buffer := []; action_count := []; history := [];
  action_taken := []; self_s := 0
|}.

Definition two_state_fresh : Agent := {|
  Q := [ [0]; [0] ]%float;
  experience_buffer := [ (0, 0, 0%Z, 0); (1, 0, 0%Z, 1) ];
  action_count := [ [0]; [0] ]%Z;
  history := [];
  action_taken := [ [0]; [0] ]%float;
  self_s := 0
|}.

Definition corridor_fresh : Agent := {|
  Q := [ [0; 0]; [0; 0]; [0; 0] ]%float;
  experience_buffer :=
    [ (0, 0, 0%Z, 0); (0, 1, 0%Z, 0); (1, 0, 0%Z, 1);
      (1, 1, 0%Z, 1); (2, 0, 0%Z, 2); (2, 1, 0%Z, 2) ];
  action_count := [ [0; 0]; [0; 0]; [0; 0] ]%Z;
  history := [];
  action_taken := [ [0; 0]; [0; 0]; [0; 0] ]%float;
  self_s := 0
|}.

(** An agent of [two_state] after four real steps and some planning. *)
Definition two_state_trained : Agent := {|
  Q := [ [0.9375]; [0.25] ]%float;
  experience_buffer := [ (0, 0, 1%Z, 1); (1, 0, 0%Z, 1) ];
  action_count := [ [0]; [4] ]%Z;
  history := [ (0, 0, 1%float, 1); (0, 0, 1%float, 1);
               (0, 0, 1%float, 1); (0, 0, 1%float, 1) ];
  action_taken := [ [0]; [0] ]%float;
  self_s := 0
|}.

(** An agent of [corridor] whose values in state 0 are not all equal. *)
Definition corridor_trained : Agent := {|
  Q := [ [0.25; 0.75]; [0; 0]; [0; 0] ]%float;
  experience_buffer :=
    [ (0, 0, 0%Z, 0); (0, 1, 0%Z, 1); (1, 0, 0%Z, 1);
      (1, 1, 0%Z, 1); (2, 0, 0%Z, 2); (2, 1, 0%Z, 2) ];
  action_count := [ [1; 0]; [2; 2]; [2; 2] ]%Z;
  history := [ (0, 0, 0.5%float, 0); (0, 1, 0%float, 1) ];
  action_taken := action_taken corridor_fresh;
  self_s := 1
|}.

(** ** [TwoStepAgent]: the history and the stay probabilities

    The class is unfinished; its history and the count of the stays are
    complete code.  A row [[a, s1, r1]] of the history, an [int] array:
    first-stage action, second-stage state, reward. *)

Module TwoStep.

Abbreviation Trial := (Z * Z * Z)%type.

(** [_init_history] and [_update_history]. *)
Definition _init_history : list Trial := [].

Definition _update_history (history : list Trial) (a s1 r1 : Z)
  : list Trial :=
  history ++ [(a, s1, r1)].

(** The eight counters of [get_stay_probabilities], Python integers that
    only ever grow from 0. *)
Record Counts := {
  common_r : nat; num_common_r : nat;
  common_nr : nat; num_common_nr : nat;
  rare_r : nat; num_rare_r : nat;
  rare_nr : nat; num_rare_nr : nat
}.

Definition no_counts : Counts := {|
  common_r := 0; num_common_r := 0; common_nr := 0; num_common_nr := 0;
  rare_r := 0; num_rare_r := 0; rare_nr := 0; num_rare_nr := 0
|}.

(** The body of the loop, after the two reads of the history. *)
Definition count_trial (a s1 r1 a_next : Z) (c : Counts) : Counts :=
  let stay (n : nat) : nat := if (a =? a_next)%Z then S n else n in
  if ((a =? 0)%Z && (s1 =? 1)%Z) || ((a =? 1)%Z && (s1 =? 2)%Z) then
    if (r1 =? 1)%Z then
      {| common_r := stay (common_r c); num_common_r := S (num_common_r c);
         common_nr := common_nr c; num_common_nr := num_common_nr c;
         rare_r := rare_r c; num_rare_r := num_rare_r c;
         rare_nr := rare_nr c; num_rare_nr := num_rare_nr c |}
    else
      {| common_r := common_r c; num_common_r := num_common_r c;
         common_nr := stay (common_nr c);
         num_common_nr := S (num_common_nr c);
         rare_r := rare_r c; num_rare_r := num_rare_r c;
         rare_nr := rare_nr c; num_rare_nr := num_rare_nr c |}
  else
    if (r1 =? 1)%Z then
      {| common_r := common_r c; num_common_r := num_common_r c;
         common_nr := common_nr c; num_common_nr := num_common_nr c;
         rare_r := stay (rare_r c); num_rare_r := S (num_rare_r c);
         rare_nr := rare_nr c; num_rare_nr := num_rare_nr c |}
    else
      {| common_r := common_r c; num_common_r := num_common_r c;
         common_nr := common_nr c; num_common_nr := num_common_nr c;
         rare_r := rare_r c; num_rare_r := num_rare_r c;
         rare_nr := stay (rare_nr c); num_rare_nr := S (num_rare_nr c) |}.

(** The loop [for idx_trial in range(num_trials-1)]; on an empty history
    the range is [range(-1)], empty as well. *)
Definition count_stays (history : list Trial) : option Counts :=
  for_range (length history - 1)
    (λ idx_trial c,
       '(a, s1, r1) ← history !! idx_trial;
       '(a_next, _, _) ← history !! (idx_trial + 1);
       Some (count_trial a s1 r1 a_next c))
    no_counts.

(** [k/n] on two Python integers: the true division, which raises
    [ZeroDivisionError]; the counters are far below [2^53], where it is the
    division of the two floats. *)
Definition true_divide (k n : nat) : option float :=
  if decide (n = 0) then None
  else Some (Np.float_of_Z (Z.of_nat k) / Np.float_of_Z (Z.of_nat n))%float.

Definition get_stay_probabilities (history : list Trial)
  : option (list float) :=
  c ← count_stays history;
  p_common_r ← true_divide (common_r c) (num_common_r c);
  p_rare_r ← true_divide (rare_r c) (num_rare_r c);
  p_common_nr ← true_divide (common_nr c) (num_common_nr c);
  p_rare_nr ← true_divide (rare_nr c) (num_rare_nr c);
  Some [p_common_r; p_rare_r; p_common_nr; p_rare_nr].

End TwoStep.

(** ** [DynaAgent] *)

Section Dyna.

Context {G : Type} {RS : RandomState G}.
Context (env : Environment) (alpha gamma epsilon : float).

Definition _init_q_values (ag : Agent) : Agent :=
  with_Q ag (Np.full2 (num_states env) (num_actions env) 0%float).

Definition _init_experience_buffer (ag : Agent) : option Agent :=
  let zeros : list BufferRow :=
    replicate (num_states env * num_actions env) (0, 0, 0%Z, 0) in
  buf ← for_range (num_states env) (λ s buf,
           for_range (num_actions env) (λ a buf,
             store buf (s * num_actions env + a) (s, a, 0%Z, s)) buf) zeros;
  Some (with_experience_buffer ag buf).

Definition _init_history (ag : Agent) : Agent :=
  with_history ag [].

Definition _init_action_count (ag : Agent) : Agent :=
  with_action_count ag (Np.full2 (num_states env) (num_actions env) 0%Z).

Definition _init_action_taken (ag : Agent) : Agent :=
  {| Q := Q ag; experience_buffer := experience_buffer ag;
     action_count := action_count ag; history := history ag;
     action_taken :=
       Np.full2 (length (action_count ag))
                (from_option length 0 (action_count ag !! 0)) 0%float;
     self_s := self_s ag |}.

(** The list [[s, a, r, s1]] as the row of an [int] array that it becomes
    in an assignment: every element is converted, the reward is cast. *)
Definition int_row (s a : nat) (r : float) (s1 : nat) : option BufferRow :=
  s' ← Np.int64_of_nat s;
  a' ← Np.int64_of_nat a;
  r' ← Np.Z_of_float r;
  s1' ← Np.int64_of_nat s1;
  Some (s', a', r', s1').

(** [experience_buffer[s * num_actions + a] = [s, a, r, s1]]: the row must
    exist and the list must convert; either failure raises. *)
Definition _update_experience_buffer (ag : Agent) (s a : nat) (r : float)
  (s1 : nat) : option Agent :=
  row ← int_row s a r s1;
  buf ← store (experience_buffer ag) (s * num_actions env + a) row;
  Some (with_experience_buffer ag buf).

Definition _update_qvals (ag : Agent) (s a : nat) (r : float) (s1 : nat)
  (bonus : bool) : option Agent :=
  qsa ← Np.get2 (Q ag) s a;
  m ← Q ag !! s1 ≫= Np.max;
  q ← Np.set2 (Q ag) s a (qsa + alpha * (r + gamma * m - qsa))%float;
  let ag := with_Q ag q in
  if bonus then
    qsa ← Np.get2 (Q ag) s a;
    c ← Np.get2 (action_count ag) s a;
    m ← Q ag !! s1 ≫= Np.max;
    q ← Np.set2 (Q ag) s a
          (qsa + alpha * (r + epsilon * sqrt (Np.float_of_Z c)
                          + gamma * m - qsa))%float;
    Some (with_Q ag q)
  else Some ag.

Definition _update_action_count (ag : Agent) (s a : nat) : option Agent :=
  let incremented :=
    map (map (λ c : Z, Np.int64_wrap (c + 1))) (action_count ag) in
  c ← Np.set2 incremented s a 0%Z;
  Some (with_action_count ag c).

Definition _update_history (ag : Agent) (s a : nat) (r : float) (s1 : nat)
  : Agent :=
  with_history ag (history ag ++ [(s, a, r, s1)]).

Definition _policy (ag : Agent) (s : nat) (g : G) : option (nat * G) :=
  row ← Q ag !! s;
  q0 ← row !! 0;
  if forallb (λ u, (u =? q0)%float) (Np.unique row)
  then Some (random_choice (length row) g)
  else a ← Np.argmax row; Some (a, g).

(** The first two lines of the loop body of [_plan], the [sample()] of the
    experience model: [mod = np.random.randint(self.experience_buffer.shape[0])]
    (which raises on an empty range) and the read of that row. *)
Definition sample (ag : Agent) (g : G) : option (BufferRow * G) :=
  if decide (length (experience_buffer ag) = 0) then None
  else
    let '(mod_, g') := random_randint (length (experience_buffer ag)) g in
    row ← experience_buffer ag !! mod_;
    Some (row, g').

(** The body of the loop of [_plan]; the reward read from the [int] buffer
    becomes a float in the arithmetic of the update. *)
Definition plan_update (st : Agent * G) : option (Agent * G) :=
  let '(ag, g) := st in
  '((s, a, r, s1), g') ← sample ag g;
  ag' ← _update_qvals ag s a (Np.float_of_Z r) s1 true;
  Some (ag', g').

Definition _plan (num_planning_updates : Z) (st : Agent * G)
  : option (Agent * G) :=
  for_range (Z.to_nat num_planning_updates) (λ _, plan_update) st.

Definition get_performace (ag : Agent) : list float :=
  Np.cumsum (map (λ row : HistoryRow, row.1.2) (history ag)).

(** The position after a move to [s1]. *)
Definition next_position (s1 : nat) : nat :=
  if decide (s1 = goal_state env) then start_state env else s1.

(** [np.random.choice(np.arange(self.num_states), p=self.T[s, a, :])];
    numpy raises when the two sizes differ. *)
Definition draw_next_state (s a : nat) (g : G) : option (nat * G) :=
  p ← T env !! s ≫= (.!! a);
  if decide (length p = num_states env) then random_choice_p p g else None.

(** The body of the loop of [simulate]: one real step. *)
Definition simulate_step (num_planning_updates : option Z) (st : Agent * G)
  : option (Agent * G) :=
  let '(ag, g) := st in
  let s := self_s ag in
  '(a, g) ← _policy ag s g;
  '(s1, g) ← draw_next_state s a g;
  r ← Np.get2 (R env) s a;
  ag ← _update_qvals ag s a r s1 false;
  ag ← _update_experience_buffer ag s a r s1;
  ag ← _update_action_count ag s a;
  let ag := _update_history ag s a r s1 in
  '(ag, g) ← match num_planning_updates with
             | Some n => _plan n (ag, g)
             | None => Some (ag, g)
             end;
  Some (with_s ag (next_position s1), g).

(** The block of [simulate] under [if reset_agent:]. *)
Definition reset (ag : Agent) : option Agent :=
  let ag := _init_q_values ag in
  ag ← _init_experience_buffer ag;
  let ag := _init_action_count ag in
  let ag := _init_history ag in
  let ag := _init_action_taken ag in
  Some (with_s ag (start_state env)).

Definition simulate (num_trials : Z) (reset_agent : bool)
  (num_planning_updates : option Z) (ag : Agent) (g : G)
  : option (Agent * G) :=
  ag ← (if reset_agent then reset ag else Some ag);
  for_range (Z.to_nat num_trials)
            (λ _, simulate_step num_planning_updates) (ag, g).


(** ** What the specification speaks of *)

(** An array of [n] rows of [m] entries. *)
Definition shape2 {A} (M : list (list A)) (n m : nat) : Prop :=
  length M = n ∧ Forall (λ row, length row = m) M.

(** The environment contract: the tables have the announced sizes, there is
    an action to take, the start state is a state, every [T[s, a, :]] is a
    distribution over the states that the sampler accepts, and what a real
    step records fits the integer experience buffer: every reward of the
    table can be cast to [int64] (it is finite and, truncated, within the
    range), and so can every state and action index. *)
Record wf_env : Prop := {
  wf_actions : 0 < num_actions env;
  wf_start : start_state env < num_states env;
  wf_R : shape2 (R env) (num_states env) (num_actions env);
  wf_T : ∀ s a, s < num_states env → a < num_actions env →
         ∃ p, T env !! s ≫= (.!! a) = Some p ∧ length p = num_states env ∧
              ∀ g : G, is_Some (random_choice_p p g);
  wf_rewards : ∀ s a r, Np.get2 (R env) s a = Some r →
               is_Some (Np.Z_of_float r);
  wf_int64 : (Z.of_nat (num_states env) ≤ 2 ^ 63)%Z ∧
             (Z.of_nat (num_actions env) ≤ 2 ^ 63)%Z
}.

(** The key stored in a buffer row and the next state it replays. *)
Definition row_key (row : BufferRow) : nat * nat := (row.1.1.1, row.1.1.2).
Definition row_next (row : BufferRow) : nat := row.2.

(** The tables of an agent that was reset for this environment: sizes, a
    buffer row for every pair at its own position, states within range. *)
Record wf_agent (ag : Agent) : Prop := {
  wf_Q : shape2 (Q ag) (num_states env) (num_actions env);
  wf_count : shape2 (action_count ag) (num_states env) (num_actions env);
  wf_buffer_length :
    length (experience_buffer ag) = num_states env * num_actions env;
  wf_buffer_rows : ∀ s a, s < num_states env → a < num_actions env →
    ∃ row, experience_buffer ag !! (s * num_actions env + a) = Some row ∧
           row_key row = (s, a) ∧ row_next row < num_states env;
  wf_self_s : self_s ag < num_states env
}.

(** The agent a run starts from: any agent when the run resets it, a
    well-formed one when it continues. *)
Definition start_ok (reset_agent : bool) (ag : Agent) : Prop :=
  reset_agent = true ∨ wf_agent ag.

(** *** The update rule

    [baseline q r m] is [q + alpha (r + gamma m - q)], the baseline update
    of a value [q] toward the reward [r] and the best next value [m];
    [with_bonus q r m c] is the second, bonus-augmented update of [q], with
    the target [r + epsilon sqrt c + gamma m - q]. *)
Definition baseline (q r m : float) : float :=
  (q + alpha * (r + gamma * m - q))%float.

Definition with_bonus (q r m : float) (c : Z) : float :=
  (q + alpha * (r + epsilon * sqrt (Np.float_of_Z c) + gamma * m - q))%float.

(** *** The recency counter *)

(** The history row records that the pair [(s, a)] was chosen. *)
Definition chosen (s a : nat) (row : HistoryRow) : Prop :=
  row.1.1.1 = s ∧ row.1.1.2 = a.

#[local] Instance chosen_dec s a row : Decision (chosen s a row).
Proof. unfold chosen. apply _. Defined.

(** [elapsed s a h k]: in the log [h] of the real steps since the reset,
    [k] steps have elapsed since [(s, a)] was last chosen, or since the
    reset when it never was. *)
Inductive elapsed (s a : nat) : list HistoryRow → nat → Prop :=
| elapsed_never h :
    Forall (λ row, ¬ chosen s a row) h → elapsed s a h (length h)
| elapsed_since h1 row h2 :
    chosen s a row → Forall (λ row, ¬ chosen s a row) h2 →
    elapsed s a (h1 ++ row :: h2) (length h2).

(** The same count, computed from the newest row backwards. *)
Fixpoint since_newest (s a : nat) (newest_first : list HistoryRow) : nat :=
  match newest_first with
  | [] => 0
  | row :: older =>
      if decide (chosen s a row) then 0 else S (since_newest s a older)
  end.

Definition since_last (s a : nat) (h : list HistoryRow) : nat :=
  since_newest s a (reverse h).

(** The counter agrees with the log on every pair. *)
Definition counter_inv (ag : Agent) : Prop :=
  ∀ s a k, s < num_states env → a < num_actions env →
    elapsed s a (history ag) k →
    Np.get2 (action_count ag) s a = Some (Np.int64_wrap (Z.of_nat k)).

(** *** The simulation loop, step by step as section 4.5 lists it *)

Definition real_step_spec (num_planning_updates : option Z)
  (st st' : Agent * G) : Prop :=
  let s := self_s st.1 in
  ∃ a g1 s1 g2 r ag4 ag5 ag6 ag8 g8,
    (* 1 *) _policy st.1 s st.2 = Some (a, g1) ∧
    (* 2 *) draw_next_state s a g1 = Some (s1, g2) ∧
    (* 3 *) Np.get2 (R env) s a = Some r ∧
    (* 4 *) _update_qvals st.1 s a r s1 false = Some ag4 ∧
    (* 5 *) _update_experience_buffer ag4 s a r s1 = Some ag5 ∧
    (* 6 *) _update_action_count ag5 s a = Some ag6 ∧
    (* 7, 8 *)
    match num_planning_updates with
    | Some n => _plan n (_update_history ag6 s a r s1, g2) = Some (ag8, g8)
    | None => (_update_history ag6 s a r s1, g2) = (ag8, g8)
    end ∧
    (* 9 *)
    st' = (with_s ag8 (if decide (s1 = goal_state env)
                       then start_state env else s1), g8).

(** [n] real steps in a row. *)
Inductive real_steps (num_planning_updates : option Z)
  : nat → Agent * G → Agent * G → Prop :=
| real_steps_O st : real_steps num_planning_updates 0 st st
| real_steps_S n st st1 st' :
    real_step_spec num_planning_updates st st1 →
    real_steps num_planning_updates n st1 st' →
    real_steps num_planning_updates (S n) st st'.

(** [walk s log s']: the rows of [log] are real steps that start in
    state [s] and end in [s']: each leaves from the current state, earns
    the reward of the table and leads to the start state when the state it
    reached is the goal, to that state otherwise. *)
Inductive walk : nat → list HistoryRow → nat → Prop :=
| walk_nil s : walk s [] s
| walk_cons s a r s1 log s' :
    Np.get2 (R env) s a = Some r →
    s1 < num_states env →
    walk (if decide (s1 = goal_state env) then start_state env else s1)
         log s' →
    walk s ((s, a, r, s1) :: log) s'.

(** *** The agents a reset agent can become: by recording a transition of a
    valid pair, by planning, or by a real step. *)
Inductive reachable : Agent → Prop :=
| reachable_reset ag ag0 : reset ag = Some ag0 → reachable ag0
| reachable_record ag s a r s1 ag' :
    reachable ag → s < num_states env → a < num_actions env →
    _update_experience_buffer ag s a r s1 = Some ag' → reachable ag'
| reachable_plan ag g n st' :
    reachable ag → _plan n (ag, g) = Some st' → reachable st'.1
| reachable_step ag g npu st' :
    reachable ag → simulate_step npu (ag, g) = Some st' → reachable st'.1.

(** *** The key invariant of the experience model: the tables have their
    sizes and the row of every pair holds that pair. *)
Definition buffer_inv (ag : Agent) : Prop :=
  shape2 (Q ag) (num_states env) (num_actions env) ∧
  length (experience_buffer ag) = num_states env * num_actions env ∧
  ∀ s a, s < num_states env → a < num_actions env →
    ∃ row, experience_buffer ag !! (s * num_actions env + a) = Some row ∧
           row_key row = (s, a).

(** *** Performance *)

(** The sum of the first [k] rewards of the log, added in log order. *)
Definition reward_sum (h : list HistoryRow) (k : nat) : option float :=
  match take k (map (λ row : HistoryRow, row.1.2) h) with
  | [] => None
  | r :: rs => Some (foldl (λ acc x, (acc + x)%float) r rs)
  end.

(** The comparison of two floats, as the specification of binary64 gives
    it: [None] when one of them is nan. *)
Definition fcmp (x y : float) : option comparison :=
  SFcompare (Prim2SF x) (Prim2SF y).

(** *** The policy *)

(** All the action values of the row are equal ([==]). *)
Definition all_equal (row : list float) : Prop :=
  ∀ x y, x ∈ row → y ∈ row → (x =? y)%float = true.

(** [x] and [y] are the same value for numpy: [==], or both nan. *)
Definition same_value (x y : float) : bool :=
  (x =? y)%float || (is_nan x && is_nan y).

(** [i] is the first index of [row] that attains [np.max(row)]. *)
Definition first_max_index (row : list float) (i : nat) : Prop :=
  ∃ m x, Np.max row = Some m ∧ row !! i = Some x ∧ same_value x m = true ∧
         ∀ j y, j < i → row !! j = Some y → same_value y m = false.

(** *** The experience model against the history

    The row of every pair is the last transition the history logs for the
    pair, its reward cast to an integer, or the self-loop of the reset when
    the history logs none. *)
Definition model_inv (ag : Agent) : Prop :=
  ∀ s a, s < num_states env → a < num_actions env →
    (∀ h1 r s1 h2, history ag = h1 ++ (s, a, r, s1) :: h2 →
       Forall (λ row, ¬ chosen s a row) h2 →
       ∃ z, Np.Z_of_float r = Some z ∧
            experience_buffer ag !! (s * num_actions env + a)
            = Some (s, a, z, s1)) ∧
    (Forall (λ row, ¬ chosen s a row) (history ag) →
     experience_buffer ag !! (s * num_actions env + a) = Some (s, a, 0%Z, s)).

(** No real step was taken from the goal state, and the agent is not
    there. *)
Definition off_goal (ag : Agent) : Prop :=
  self_s ag ≠ goal_state env ∧
  Forall (λ row : HistoryRow, row.1.1.1 ≠ goal_state env) (history ag).

(** The value of every pair the history never chose is still the 0 of the
    reset. *)
Definition unchosen_zero (ag : Agent) : Prop :=
  ∀ s a, s < num_states env → a < num_actions env →
    Forall (λ row, ¬ chosen s a row) (history ag) →
    Np.get2 (Q ag) s a = Some 0%float.


(** * Properties *)

Arguments _policy : simpl never.
Arguments draw_next_state : simpl never.
Arguments _update_qvals : simpl never.
Arguments _update_experience_buffer : simpl never.
Arguments _update_action_count : simpl never.
Arguments _plan : simpl never.
Arguments plan_update : simpl never.
Arguments sample : simpl never.
Arguments simulate_step : simpl never.
Arguments reset : simpl never.

(** ** Arrays *)

Lemma shape2_lookup {A} (M : list (list A)) n m i :
  shape2 M n m → i < n → ∃ row, M !! i = Some row ∧ length row = m.
Proof.
  intros [Hn Hm] Hi. destruct (lookup_lt_is_Some_2 M i) as [row Hrow]; [lia|].
  exists row. split; [done|].
  by apply (Forall_lookup_1 _ _ _ _ Hm Hrow).
Qed.

Lemma shape2_full2 {A} n m (v : A) : shape2 (Np.full2 n m v) n m.
Proof.
  split; [apply length_replicate|].
  apply Forall_replicate, length_replicate.
Qed.

Lemma get2_is_Some {A} (M : list (list A)) n m i j :
  shape2 M n m → i < n → j < m → is_Some (Np.get2 M i j).
Proof.
  intros HM Hi Hj. destruct (shape2_lookup M n m i HM Hi) as (row & Hrow & Hlen).
  unfold Np.get2. rewrite Hrow. simpl. apply lookup_lt_is_Some_2. lia.
Qed.

Lemma get2_full2 {A} n m (v : A) i j :
  i < n → j < m → Np.get2 (Np.full2 n m v) i j = Some v.
Proof.
  intros Hi Hj. unfold Np.get2, Np.full2.
  rewrite lookup_replicate_2 by done. simpl. by rewrite lookup_replicate_2.
Qed.

Lemma get2_lt {A} (M : list (list A)) n m i j v :
  shape2 M n m → Np.get2 M i j = Some v → i < n ∧ j < m.
Proof.
  intros [Hn Hm] Hget. unfold Np.get2 in Hget.
  destruct (M !! i) as [row|] eqn:Hrow; [|done]. simpl in Hget.
  split.
  - rewrite <- Hn. by apply lookup_lt_Some in Hrow.
  - rewrite <- (Forall_lookup_1 _ _ _ _ Hm Hrow). by apply lookup_lt_Some in Hget.
Qed.

Lemma set2_Some {A} (M M' : list (list A)) i j v :
  Np.set2 M i j v = Some M' →
  ∃ row old, M !! i = Some row ∧ row !! j = Some old ∧
             M' = <[i := <[j := v]> row]> M.
Proof.
  unfold Np.set2. intros HM.
  destruct (M !! i) as [row|] eqn:Hrow; [|done]. simpl in HM.
  destruct (row !! j) as [old|] eqn:Hold; [|done]. simpl in HM.
  exists row, old. by injection HM as <-.
Qed.

Lemma set2_is_Some {A} (M : list (list A)) n m i j v :
  shape2 M n m → i < n → j < m → is_Some (Np.set2 M i j v).
Proof.
  intros HM Hi Hj. destruct (shape2_lookup M n m i HM Hi) as (row & Hrow & Hlen).
  unfold Np.set2. rewrite Hrow. simpl.
  destruct (lookup_lt_is_Some_2 row j) as [old ->]; [lia|]. by eexists.
Qed.

Lemma set2_of_get2 {A} (M : list (list A)) i j old v :
  Np.get2 M i j = Some old → is_Some (Np.set2 M i j v).
Proof.
  unfold Np.get2, Np.set2. destruct (M !! i) as [row|]; [|done]. simpl.
  intros ->. by eexists.
Qed.

Lemma set2_shape {A} (M M' : list (list A)) n m i j v :
  Np.set2 M i j v = Some M' → shape2 M n m → shape2 M' n m.
Proof.
  intros (row & old & Hrow & Hold & ->)%set2_Some [Hn Hm]. split.
  - by rewrite length_insert.
  - apply Forall_insert; [done|]. rewrite length_insert.
    by apply (Forall_lookup_1 _ _ _ _ Hm Hrow).
Qed.

Lemma get2_set2_eq {A} (M M' : list (list A)) i j v :
  Np.set2 M i j v = Some M' → Np.get2 M' i j = Some v.
Proof.
  intros (row & old & Hrow & Hold & ->)%set2_Some. unfold Np.get2.
  rewrite list_lookup_insert_eq by (by apply lookup_lt_Some in Hrow). simpl.
  apply list_lookup_insert_eq. by apply lookup_lt_Some in Hold.
Qed.

Lemma get2_set2_ne {A} (M M' : list (list A)) i j v i' j' :
  Np.set2 M i j v = Some M' → (i, j) ≠ (i', j') →
  Np.get2 M' i' j' = Np.get2 M i' j'.
Proof.
  intros (row & old & Hrow & Hold & ->)%set2_Some Hne. unfold Np.get2.
  destruct (decide (i = i')) as [<-|Hi].
  - rewrite list_lookup_insert_eq by (by apply lookup_lt_Some in Hrow).
    rewrite Hrow. simpl. apply list_lookup_insert_ne. congruence.
  - by rewrite list_lookup_insert_ne.
Qed.

Lemma set2_lookup_ne {A} (M M' : list (list A)) i j v i' :
  Np.set2 M i j v = Some M' → i ≠ i' → M' !! i' = M !! i'.
Proof.
  intros (row & old & Hrow & Hold & ->)%set2_Some Hne.
  by apply list_lookup_insert_ne.
Qed.

Lemma set2_lookup_length {A} (M M' : list (list A)) i j v i' :
  Np.set2 M i j v = Some M' → length <$> M' !! i' = length <$> M !! i'.
Proof.
  intros HM. destruct (decide (i = i')) as [<-|Hi].
  - destruct (set2_Some _ _ _ _ _ HM) as (row & old & Hrow & Hold & ->).
    rewrite list_lookup_insert_eq by (by apply lookup_lt_Some in Hrow).
    rewrite Hrow. simpl. by rewrite length_insert.
  - by rewrite (set2_lookup_ne _ _ _ _ _ _ HM Hi).
Qed.

Lemma get2_map {A B} (f : A → B) (M : list (list A)) i j :
  Np.get2 (map (map f) M) i j = f <$> Np.get2 M i j.
Proof.
  unfold Np.get2. change (map (map f) M) with (fmap (M:=list) (fmap f) M).
  rewrite list_lookup_fmap. destruct (M !! i) as [row|]; [|done]. simpl.
  apply list_lookup_fmap.
Qed.

Lemma store_Some {A} (arr arr' : list A) i v :
  store arr i v = Some arr' → i < length arr ∧ arr' = <[i := v]> arr.
Proof. unfold store. case_decide; [|done]. by intros [= <-]. Qed.

Lemma store_is_Some {A} (arr : list A) i v :
  i < length arr → store arr i v = Some (<[i := v]> arr).
Proof. intros Hi. unfold store. by rewrite decide_True. Qed.

(** ** Loops *)

Lemma for_each_app {St} (l1 l2 : list nat) (body : nat → St → option St) st :
  for_each (l1 ++ l2) body st = for_each l1 body st ≫= for_each l2 body.
Proof.
  revert st. induction l1 as [|i l1 IH]; intros st; simpl; [done|].
  destruct (body i st) as [st'|]; simpl; [apply IH|done].
Qed.

(** A loop invariant: what holds before the loop and is kept by every
    iteration that returns holds after it. *)
Lemma for_each_invariant {St} (P : St → Prop) (l : list nat)
  (body : nat → St → option St) st st' :
  (∀ i x x', i ∈ l → P x → body i x = Some x' → P x') →
  P st → for_each l body st = Some st' → P st'.
Proof.
  revert st. induction l as [|i l IH]; intros st Hbody Hst; simpl.
  - by intros [= <-].
  - destruct (body i st) as [st1|] eqn:Hb; [|done]. simpl.
    apply IH.
    + intros j x x' Hj. apply Hbody. by right.
    + apply (Hbody i st st1); [left|done..].
Qed.

(** A loop whose body returns under the invariant returns. *)
Lemma for_each_total {St} (P : St → Prop) (l : list nat)
  (body : nat → St → option St) st :
  (∀ i x, i ∈ l → P x → ∃ x', body i x = Some x' ∧ P x') →
  P st → ∃ st', for_each l body st = Some st' ∧ P st'.
Proof.
  revert st. induction l as [|i l IH]; intros st Hbody Hst; simpl.
  - by exists st.
  - destruct (Hbody i st) as (st1 & -> & Hst1); [left|done|]. simpl.
    apply IH; [|done]. intros j x Hj. apply Hbody. by right.
Qed.

(** ** The value table *)

(** The row maximum exists as soon as the row is not empty. *)
Lemma max_is_Some (row : list float) : 0 < length row → is_Some (Np.max row).
Proof. destruct row; simpl; [lia|by eexists]. Qed.

Lemma row_max_is_Some (q : list (list float)) n m s1 :
  shape2 q n m → 0 < m → s1 < n → is_Some (q !! s1 ≫= Np.max).
Proof.
  intros Hq Hm Hs1. destruct (shape2_lookup q n m s1 Hq Hs1) as (row & -> & Hlen).
  simpl. apply max_is_Some. lia.
Qed.

Lemma update_qvals_inv ag s a r s1 bonus ag' :
  _update_qvals ag s a r s1 bonus = Some ag' →
  ∃ qsa m q1,
    Np.get2 (Q ag) s a = Some qsa ∧ Q ag !! s1 ≫= Np.max = Some m ∧
    Np.set2 (Q ag) s a (baseline qsa r m) = Some q1 ∧
    if bonus then
      ∃ c m1 q2,
        Np.get2 (action_count ag) s a = Some c ∧
        q1 !! s1 ≫= Np.max = Some m1 ∧
        Np.set2 q1 s a (with_bonus (baseline qsa r m) r m1 c) = Some q2 ∧
        ag' = with_Q ag q2
    else ag' = with_Q ag q1.
Proof.
  unfold _update_qvals. intros Hupd.
  destruct (Np.get2 (Q ag) s a) as [qsa|] eqn:Hqsa; [|done]. simpl in Hupd.
  destruct (Q ag !! s1 ≫= Np.max) as [m|] eqn:Hm; [|done]. simpl in Hupd.
  destruct (Np.set2 (Q ag) s a _) as [q1|] eqn:Hq1; [|done]. simpl in Hupd.
  exists qsa, m, q1. split_and!; [done..|].
  destruct bonus; [|by injection Hupd as <-].
  rewrite (get2_set2_eq _ _ _ _ _ Hq1) in Hupd. simpl in Hupd.
  destruct (Np.get2 (action_count ag) s a) as [c|] eqn:Hc; [|done].
  simpl in Hupd.
  destruct (q1 !! s1 ≫= Np.max) as [m1|] eqn:Hm1; [|done]. simpl in Hupd.
  destruct (Np.set2 q1 s a _) as [q2|] eqn:Hq2; [|done]. simpl in Hupd.
  exists c, m1, q2. split_and!; [done..|]. by injection Hupd as <-.
Qed.

(** Only the value table is written. *)
Lemma update_qvals_Q ag s a r s1 bonus ag' :
  _update_qvals ag s a r s1 bonus = Some ag' → ag' = with_Q ag (Q ag').
Proof.
  intros (qsa & m & q1 & _ & _ & _ & H)%update_qvals_inv.
  destruct bonus; [destruct H as (c & m1 & q2 & _ & _ & _ & ->)|subst]; done.
Qed.

Lemma update_qvals_shape ag s a r s1 bonus ag' n m :
  _update_qvals ag s a r s1 bonus = Some ag' →
  shape2 (Q ag) n m → shape2 (Q ag') n m.
Proof.
  intros (qsa & mx & q1 & _ & _ & Hq1 & H)%update_qvals_inv HQ.
  pose proof (set2_shape _ _ _ _ _ _ _ Hq1 HQ) as Hs1.
  destruct bonus; [|by subst].
  destruct H as (c & m1 & q2 & _ & _ & Hq2 & ->). simpl.
  by apply (set2_shape _ _ _ _ _ _ _ Hq2).
Qed.

Lemma update_qvals_total ag s a r s1 bonus n m :
  shape2 (Q ag) n m → shape2 (action_count ag) n m →
  s < n → a < m → s1 < n →
  is_Some (_update_qvals ag s a r s1 bonus).
Proof.
  intros HQ HC Hs Ha Hs1. unfold _update_qvals.
  destruct (get2_is_Some _ _ _ s a HQ Hs Ha) as [qsa ->]. simpl.
  destruct (row_max_is_Some _ _ _ s1 HQ ltac:(lia) Hs1) as [mx ->]. simpl.
  destruct (set2_is_Some (Q ag) n m s a (qsa + alpha * (r + gamma * mx - qsa))%float
              HQ Hs Ha) as [q1 Hq1].
  rewrite Hq1. simpl. destruct bonus; [|by eexists].
  pose proof (set2_shape _ _ _ _ _ _ _ Hq1 HQ) as HQ1.
  rewrite (get2_set2_eq _ _ _ _ _ Hq1). simpl.
  destruct (get2_is_Some _ _ _ s a HC Hs Ha) as [c ->]. simpl.
  destruct (row_max_is_Some _ _ _ s1 HQ1 ltac:(lia) Hs1) as [m1 ->]. simpl.
  match goal with |- is_Some (Np.set2 q1 s a ?v ≫= _) =>
    destruct (set2_is_Some q1 n m s a v HQ1 Hs Ha) as [q2 ->] end.
  by eexists.
Qed.

Lemma max_is_Some_length (row row' : list float) m :
  length row' = length row → Np.max row = Some m → is_Some (Np.max row').
Proof.
  intros Hlen Hm. apply max_is_Some. rewrite Hlen.
  destruct row; [done|simpl; lia].
Qed.

Lemma row_max_after_set2 (q q1 : list (list float)) s a v s1 m :
  Np.set2 q s a v = Some q1 → q !! s1 ≫= Np.max = Some m →
  ∃ m1, q1 !! s1 ≫= Np.max = Some m1 ∧ (s1 ≠ s → m1 = m).
Proof.
  intros Hq1 Hm.
  pose proof (set2_lookup_length _ _ _ _ _ s1 Hq1) as Hlen.
  destruct (q !! s1) as [row|] eqn:Hrow; [|done].
  destruct (q1 !! s1) as [row1|] eqn:Hrow1; [|done].
  simpl in *. injection Hlen as Hlen.
  destruct (max_is_Some_length row row1 m Hlen Hm) as [m1 Hm1].
  exists m1. split; [done|]. intros Hne.
  rewrite (set2_lookup_ne _ _ _ _ _ _ Hq1) in Hrow1 by done.
  congruence.
Qed.

(** C1. A call of the value-table update with the bonus flag set writes
    [Q[s,a]] twice: the baseline update of the old value [q] toward
    [r + gamma max Q[s1]] first, then, on top of the value that update left,
    the bonus update toward [r + epsilon sqrt(C[s,a]) + gamma max Q[s1]],
    the maximum being read from the table as the first update left it (the
    same maximum when [s1] is another state) and the counter as it is at the
    call.  Without the flag only the baseline update is applied.  No other
    entry of the table changes. *)
Theorem update_qvals_bonus_applies_both_updates ag s a r s1 q m c :
  Np.get2 (Q ag) s a = Some q →
  Q ag !! s1 ≫= Np.max = Some m →
  Np.get2 (action_count ag) s a = Some c →
  ∃ ag1 ag2 m1,
    _update_qvals ag s a r s1 false = Some ag1 ∧
    _update_qvals ag s a r s1 true = Some ag2 ∧
    Np.get2 (Q ag1) s a = Some (baseline q r m) ∧
    Q ag1 !! s1 ≫= Np.max = Some m1 ∧ (s1 ≠ s → m1 = m) ∧
    Np.get2 (Q ag2) s a = Some (with_bonus (baseline q r m) r m1 c) ∧
    ∀ i j, (i, j) ≠ (s, a) →
      Np.get2 (Q ag1) i j = Np.get2 (Q ag) i j ∧
      Np.get2 (Q ag2) i j = Np.get2 (Q ag) i j.
Proof.
  intros Hq Hm Hc.
  destruct (set2_of_get2 _ _ _ _ (baseline q r m) Hq) as [q1 Hq1].
  destruct (row_max_after_set2 _ _ _ _ _ _ _ Hq1 Hm) as (m1 & Hm1 & Hsame).
  pose proof (get2_set2_eq _ _ _ _ _ Hq1) as Hq1sa.
  destruct (set2_of_get2 _ _ _ _ (with_bonus (baseline q r m) r m1 c) Hq1sa)
    as [q2 Hq2].
  exists (with_Q ag q1), (with_Q ag q2), m1.
  assert (Hbase : _update_qvals ag s a r s1 false = Some (with_Q ag q1)).
  { unfold _update_qvals. rewrite Hq. simpl. rewrite Hm. simpl.
    fold (baseline q r m). by rewrite Hq1. }
  assert (Hbonus : _update_qvals ag s a r s1 true = Some (with_Q ag q2)).
  { unfold _update_qvals. rewrite Hq. simpl. rewrite Hm. simpl.
    fold (baseline q r m). rewrite Hq1. simpl. rewrite Hq1sa. simpl.
    rewrite Hc. simpl. rewrite Hm1. simpl.
    fold (with_bonus (baseline q r m) r m1 c). by rewrite Hq2. }
  split_and!; [done..|by apply get2_set2_eq in Hq2|].
  intros i j Hne. simpl. assert (Hne' : (s, a) ≠ (i, j)) by congruence.
  rewrite (get2_set2_ne _ _ _ _ _ i j Hq2 Hne').
  by rewrite (get2_set2_ne _ _ _ _ _ i j Hq1 Hne').
Qed.

(** A [range] loop with an invariant that follows the index. *)
Lemma for_each_seq_total {St} (P : nat → St → Prop) (b len : nat)
  (body : nat → St → option St) st :
  (∀ i x, b ≤ i < b + len → P i x → ∃ x', body i x = Some x' ∧ P (S i) x') →
  P b st → ∃ st', for_each (seq b len) body st = Some st' ∧ P (b + len) st'.
Proof.
  revert b st. induction len as [|len IH]; intros b st Hbody Hst; simpl.
  - exists st. by rewrite Nat.add_0_r.
  - destruct (Hbody b st) as (st1 & -> & Hst1); [lia|done|]. simpl.
    destruct (IH (S b) st1) as (st' & Hfor & Hst'); [|done|].
    + intros i x Hi. apply Hbody. lia.
    + exists st'. split; [done|]. by replace (b + S len) with (S b + len) by lia.
Qed.

Lemma for_range_total {St} (P : nat → St → Prop) (n : nat)
  (body : nat → St → option St) st :
  (∀ i x, i < n → P i x → ∃ x', body i x = Some x' ∧ P (S i) x') →
  P 0 st → ∃ st', for_range n body st = Some st' ∧ P n st'.
Proof.
  intros Hbody Hst. apply (for_each_seq_total P 0 n); [|done].
  intros i x Hi. apply Hbody. lia.
Qed.

(** ** The experience buffer *)

(** Rows of distinct pairs are distinct rows. *)
Lemma row_index_lt s a n m : s < n → a < m → s * m + a < n * m.
Proof.
  intros Hs Ha. assert ((s + 1) * m ≤ n * m) by (apply Nat.mul_le_mono_r; lia).
  lia.
Qed.

Lemma row_index_inj s a s' a' m :
  a < m → a' < m → s * m + a = s' * m + a' → s = s' ∧ a = a'.
Proof.
  intros Ha Ha' Heq.
  destruct (Nat.lt_trichotomy s s') as [Hlt|[->|Hlt]]; [|lia|].
  - assert ((s + 1) * m ≤ s' * m) by (apply Nat.mul_le_mono_r; lia). lia.
  - assert ((s' + 1) * m ≤ s * m) by (apply Nat.mul_le_mono_r; lia). lia.
Qed.

(** The loops of [_init_experience_buffer] return, with one self-loop row of
    reward 0 for every pair, at the pair's position. *)
Lemma init_experience_buffer_rows ag :
  ∃ buf, _init_experience_buffer ag = Some (with_experience_buffer ag buf) ∧
         length buf = num_states env * num_actions env ∧
         ∀ s a, s < num_states env → a < num_actions env →
                buf !! (s * num_actions env + a) = Some (s, a, 0%Z, s).
Proof.
  unfold _init_experience_buffer.
  set (NS := num_states env). set (NA := num_actions env).
  set (body := λ (s : nat) (buf : list BufferRow),
         for_range NA (λ a buf, store buf (s * NA + a) (s, a, 0%Z, s)) buf).
  set (P := λ (i : nat) (buf : list BufferRow),
         length buf = NS * NA ∧
         ∀ s a, s < i → a < NA → buf !! (s * NA + a) = Some (s, a, 0%Z, s)).
  destruct (for_range_total P NS body
              (replicate (NS * NA) (0, 0, 0%Z, 0))) as (buf & Hbuf & Hlen & Hrows).
  - intros s buf Hs [Hlen Hrows]. unfold body.
    set (P' := λ (j : nat) (buf : list BufferRow),
           length buf = NS * NA ∧
           (∀ s' a, s' < s → a < NA → buf !! (s' * NA + a) = Some (s', a, 0%Z, s')) ∧
           ∀ a, a < j → buf !! (s * NA + a) = Some (s, a, 0%Z, s)).
    destruct (for_range_total P' NA
                (λ a buf, store buf (s * NA + a) (s, a, 0%Z, s)) buf)
      as (buf' & Hbuf' & Hlen' & Hold & Hnew).
    + intros a b Ha (Hl & Ho & Hn).
      exists (<[s * NA + a := (s, a, 0%Z, s)]> b).
      assert (s * NA + a < length b) by (rewrite Hl; by apply row_index_lt).
      split; [by apply store_is_Some|]. split_and!.
      * by rewrite length_insert.
      * intros s' a' Hs' Ha'. rewrite list_lookup_insert_ne; [by apply Ho|].
        intros Heq. apply row_index_inj in Heq; [lia|done..].
      * intros a' Ha'. destruct (decide (a' = a)) as [->|Hne].
        -- by rewrite list_lookup_insert_eq.
        -- rewrite list_lookup_insert_ne by lia. apply Hn. lia.
    + split_and!; [done|done|]. intros a Ha. lia.
    + exists buf'. split; [done|]. split; [done|].
      intros s' a Hs' Ha. destruct (decide (s' = s)) as [->|Hne].
      * by apply Hnew.
      * apply Hold; [lia|done].
  - split; [apply length_replicate|]. intros s a Hs. lia.
  - exists buf. split; [|done].
    change (for_range NS body (replicate (NS * NA) (0, 0, 0%Z, 0))
            ≫= (λ b, Some (with_experience_buffer ag b))
            = Some (with_experience_buffer ag buf)).
    by rewrite Hbuf.
Qed.

(** The conversion of the row returns exactly when the reward can be cast
    and the three indices fit; the row then holds the cast reward. *)
Lemma int_row_Some s a r s1 row :
  int_row s a r s1 = Some row ↔
  ∃ z, Np.Z_of_float r = Some z ∧ row = (s, a, z, s1) ∧
       (Z.of_nat s < 2 ^ 63)%Z ∧ (Z.of_nat a < 2 ^ 63)%Z ∧
       (Z.of_nat s1 < 2 ^ 63)%Z.
Proof.
  unfold int_row, Np.int64_of_nat. split.
  - destruct (decide (Z.of_nat s < 2 ^ 63)%Z); simpl; [|done].
    destruct (decide (Z.of_nat a < 2 ^ 63)%Z); simpl; [|done].
    destruct (Np.Z_of_float r) as [z|]; simpl; [|done].
    destruct (decide (Z.of_nat s1 < 2 ^ 63)%Z); simpl; [|done].
    intros [= <-]. by exists z.
  - intros (z & Hz & -> & Hs & Ha & Hs1).
    rewrite Hz. by rewrite !decide_True by done.
Qed.

Lemma update_experience_buffer_inv ag s a r s1 ag' :
  _update_experience_buffer ag s a r s1 = Some ag' →
  ∃ z, Np.Z_of_float r = Some z ∧
       s * num_actions env + a < length (experience_buffer ag) ∧
       ag' = with_experience_buffer ag
               (<[s * num_actions env + a := (s, a, z, s1)]>
                  (experience_buffer ag)).
Proof.
  unfold _update_experience_buffer. intros Hupd.
  destruct (int_row s a r s1) as [row|] eqn:Hrow; [|done]. simpl in Hupd.
  apply int_row_Some in Hrow as (z & Hz & -> & _).
  destruct (store _ _ _) as [buf|] eqn:Hbuf; [|done].
  apply store_Some in Hbuf as [Hlt ->]. exists z. by injection Hupd as <-.
Qed.

Lemma update_experience_buffer_total ag s a r s1 :
  length (experience_buffer ag) = num_states env * num_actions env →
  s < num_states env → a < num_actions env →
  (Z.of_nat s < 2 ^ 63)%Z → (Z.of_nat a < 2 ^ 63)%Z →
  (Z.of_nat s1 < 2 ^ 63)%Z → is_Some (Np.Z_of_float r) →
  is_Some (_update_experience_buffer ag s a r s1).
Proof.
  intros Hlen Hs Ha Hs64 Ha64 Hs164 [z Hz]. unfold _update_experience_buffer.
  rewrite (proj2 (int_row_Some s a r s1 (s, a, z, s1))) by by exists z.
  simpl. rewrite store_is_Some; [by eexists|].
  rewrite Hlen. by apply row_index_lt.
Qed.

(** ** Reset *)

(** A reset overwrites every table: its result does not depend on the agent
    it is applied to. *)
Lemma reset_independent ag1 ag2 : reset ag1 = reset ag2.
Proof.
  unfold reset, _init_experience_buffer.
  destruct (for_range (num_states env) _ _) as [buf|]; reflexivity.
Qed.

Lemma reset_spec ag :
  ∃ ag0, reset ag = Some ag0 ∧
    Q ag0 = Np.full2 (num_states env) (num_actions env) 0%float ∧
    action_count ag0 = Np.full2 (num_states env) (num_actions env) 0%Z ∧
    history ag0 = [] ∧ self_s ag0 = start_state env ∧
    length (experience_buffer ag0) = num_states env * num_actions env ∧
    ∀ s a, s < num_states env → a < num_actions env →
      experience_buffer ag0 !! (s * num_actions env + a) = Some (s, a, 0%Z, s).
Proof.
  unfold reset.
  destruct (init_experience_buffer_rows (_init_q_values ag))
    as (buf & -> & Hlen & Hrows).
  simpl. eexists. split; [done|]. by simpl.
Qed.

Lemma reset_wf ag ag0 :
  start_state env < num_states env → reset ag = Some ag0 → wf_agent ag0.
Proof.
  intros Hstart Hreset.
  destruct (reset_spec ag) as (ag0' & Hreset' & HQ & HC & HH & Hs & Hlen & Hrows).
  assert (ag0' = ag0) as -> by congruence.
  split.
  - rewrite HQ. apply shape2_full2.
  - rewrite HC. apply shape2_full2.
  - done.
  - intros s a Hs' Ha. exists (s, a, 0%Z, s). by rewrite Hrows.
  - by rewrite Hs.
Qed.

(** ** The recency counter *)

Lemma shape2_map {A B} (f : A → B) (M : list (list A)) n m :
  shape2 M n m → shape2 (map (map f) M) n m.
Proof.
  intros [Hn Hm]. split; [by rewrite length_map|].
  apply Forall_forall. intros row Hrow.
  apply list_elem_of_In, in_map_iff in Hrow as (row0 & <- & Hin).
  rewrite length_map. rewrite Forall_forall in Hm.
  by apply Hm, list_elem_of_In.
Qed.

Lemma update_action_count_inv ag s a ag' :
  _update_action_count ag s a = Some ag' →
  ∃ c, Np.set2 (map (map (λ c : Z, Np.int64_wrap (c + 1))) (action_count ag))
               s a 0%Z = Some c ∧
       ag' = with_action_count ag c.
Proof.
  unfold _update_action_count. intros Hupd.
  destruct (Np.set2 _ s a 0%Z) as [c|] eqn:Hc; [|done].
  exists c. by injection Hupd as <-.
Qed.

(** The touch: every entry is incremented, then the entry of the pair just
    taken is zeroed. *)
Lemma update_action_count_get ag s a ag' i j :
  _update_action_count ag s a = Some ag' →
  Np.get2 (action_count ag') i j =
    if decide ((i, j) = (s, a)) then Some 0%Z
    else (λ c : Z, Np.int64_wrap (c + 1)) <$> Np.get2 (action_count ag) i j.
Proof.
  intros (c & Hc & ->)%update_action_count_inv. simpl.
  case_decide as Heq.
  - injection Heq as -> ->. by apply get2_set2_eq in Hc.
  - rewrite (get2_set2_ne _ _ _ _ _ i j Hc) by congruence. apply get2_map.
Qed.

Lemma update_action_count_shape ag s a ag' n m :
  _update_action_count ag s a = Some ag' →
  shape2 (action_count ag) n m → shape2 (action_count ag') n m.
Proof.
  intros (c & Hc & ->)%update_action_count_inv HC. simpl.
  apply (set2_shape _ _ _ _ _ _ _ Hc). by apply shape2_map.
Qed.

Lemma update_action_count_total ag s a n m :
  shape2 (action_count ag) n m → s < n → a < m →
  is_Some (_update_action_count ag s a).
Proof.
  intros HC Hs Ha. unfold _update_action_count.
  destruct (set2_is_Some (map (map (λ c : Z, Np.int64_wrap (c + 1)))
                            (action_count ag)) n m s a 0%Z) as [c ->];
    [by apply shape2_map|done..|].
  by eexists.
Qed.

(** Incrementing a wrapped count is wrapping the incremented count. *)
Lemma int64_wrap_succ (k : Z) :
  Np.int64_wrap (Np.int64_wrap k + 1) = Np.int64_wrap (k + 1).
Proof.
  unfold Np.int64_wrap.
  replace (((k + 2 ^ 63) `mod` 2 ^ 64 - 2 ^ 63 + 1 + 2 ^ 63)%Z)
    with (((k + 2 ^ 63) `mod` 2 ^ 64 + 1)%Z) by lia.
  replace ((k + 1 + 2 ^ 63)%Z) with ((k + 2 ^ 63 + 1)%Z) by lia.
  by rewrite Zplus_mod_idemp_l.
Qed.

Lemma int64_wrap_small (k : Z) :
  (- 2 ^ 63 ≤ k < 2 ^ 63)%Z → Np.int64_wrap k = k.
Proof.
  intros Hk. unfold Np.int64_wrap. rewrite Z.mod_small; lia.
Qed.

(** [elapsed] is what [since_last] computes. *)
Lemma elapsed_snoc_chosen s a h row :
  chosen s a row → ∀ k, elapsed s a (h ++ [row]) k ↔ k = 0.
Proof.
  intros Hrow k. split.
  - intros Hel. inversion Hel as [h' Hall Hh|h1 row' h2 Hrow' Hall Hh].
    + apply Forall_app in Hall as [_ Hall]. by inversion Hall.
    + destruct h2 as [|x h2 _] using rev_ind; [done|].
      rewrite app_comm_cons, app_assoc in Hh.
      apply app_inj_tail in Hh as [_ ->].
      apply Forall_app in Hall as [_ Hall]. by inversion Hall.
  - intros ->. apply (elapsed_since s a h row []); [done|constructor].
Qed.

Lemma elapsed_snoc_other s a h row :
  ¬ chosen s a row →
  ∀ k, elapsed s a (h ++ [row]) k ↔ ∃ k', k = S k' ∧ elapsed s a h k'.
Proof.
  intros Hrow k. split.
  - intros Hel. inversion Hel as [h' Hall Hh|h1 row' h2 Hrow' Hall Hh].
    + apply Forall_app in Hall as [Hall _]. exists (length h).
      split; [rewrite length_app; simpl; lia|]. by constructor.
    + destruct h2 as [|x h2 _] using rev_ind.
      * apply app_inj_tail in Hh as [_ ->]. done.
      * rewrite app_comm_cons, app_assoc in Hh.
        apply app_inj_tail in Hh as [<- ->].
        apply Forall_app in Hall as [Hall _]. exists (length h2).
        split; [rewrite length_app; simpl; lia|]. by constructor.
  - intros (k' & -> & Hel).
    inversion Hel as [h' Hall Hh|h1 row' h2 Hrow' Hall Hh]; subst.
    + replace (S (length h)) with (length (h ++ [row]))
        by (rewrite length_app; simpl; lia).
      constructor. apply Forall_app. split; [done|]. by constructor.
    + replace (S (length h2)) with (length (h2 ++ [row]))
        by (rewrite length_app; simpl; lia).
      rewrite <- app_assoc, <- app_comm_cons.
      constructor; [done|]. apply Forall_app. split; [done|]. by constructor.
Qed.

Lemma elapsed_nil s a k : elapsed s a [] k ↔ k = 0.
Proof.
  split.
  - intros Hel. inversion Hel as [h' Hall Hh|h1 row' h2 Hrow' Hall Hh]; [done|].
    by destruct h1.
  - intros ->. apply (elapsed_never s a []). constructor.
Qed.

Lemma elapsed_since_last s a h k : elapsed s a h k ↔ k = since_last s a h.
Proof.
  revert k. induction h as [|row h IH] using rev_ind; intros k.
  - by rewrite elapsed_nil.
  - unfold since_last in *. rewrite reverse_snoc. simpl.
    case_decide as Hrow.
    + by rewrite elapsed_snoc_chosen.
    + rewrite elapsed_snoc_other by done. split.
      * intros (k' & -> & Hel). f_equal. by apply IH.
      * intros ->. eexists. split; [done|]. by apply IH.
Qed.

Lemma elapsed_le_length s a h k : elapsed s a h k → k ≤ length h.
Proof.
  intros Hel. inversion Hel; subst; [done|].
  rewrite length_app. simpl. lia.
Qed.

(** ** The policy returns an action *)

Lemma argmax_from_lt mp max_ind i l :
  max_ind < i → Np.argmax_from mp max_ind i l < i + length l.
Proof.
  revert mp max_ind i. induction l as [|x l IH]; intros mp max_ind i Hlt; simpl.
  - lia.
  - destruct (negb (x <=? mp)%float).
    + destruct (is_nan x); [lia|].
      specialize (IH x i (S i)). lia.
    + specialize (IH mp max_ind (S i)). lia.
Qed.

Lemma argmax_lt row a : Np.argmax row = Some a → a < length row.
Proof.
  destruct row as [|x l]; [done|]. simpl. intros [= <-].
  destruct (is_nan x); [lia|].
  pose proof (argmax_from_lt x 0 1 l). lia.
Qed.

Lemma policy_lt ag s g a g' :
  _policy ag s g = Some (a, g') →
  ∃ row, Q ag !! s = Some row ∧ a < length row.
Proof.
  unfold _policy. intros Hpol.
  destruct (Q ag !! s) as [row|] eqn:Hrow; [|done]. simpl in Hpol.
  destruct (row !! 0) as [q0|] eqn:Hq0; [|done]. simpl in Hpol.
  exists row. split; [done|].
  destruct (forallb _ _).
  - injection Hpol as Hpol.
    change a with (a, g').1. rewrite <- Hpol.
    apply random_choice_lt. by apply lookup_lt_Some in Hq0.
  - destruct (Np.argmax row) as [i|] eqn:Hi; [|done]. simpl in Hpol.
    injection Hpol as <- <-. by apply argmax_lt.
Qed.

Lemma policy_total ag s g n m :
  shape2 (Q ag) n m → s < n → 0 < m →
  ∃ a g', _policy ag s g = Some (a, g') ∧ a < m.
Proof.
  intros HQ Hs Hm.
  destruct (shape2_lookup _ _ _ s HQ Hs) as (row & Hrow & Hlen).
  assert (∃ a g', _policy ag s g = Some (a, g')) as (a & g' & Hpol).
  { unfold _policy. rewrite Hrow. simpl.
    destruct row as [|q0 row]; [simpl in Hlen; lia|]. simpl.
    destruct (forallb _ _).
    - destruct (random_choice _ g) as [a g']. by exists a, g'.
    - simpl. by eexists _, _. }
  exists a, g'. split; [done|].
  destruct (policy_lt _ _ _ _ _ Hpol) as (row' & Hrow' & Hlt).
  congruence.
Qed.

(** ** Planning *)

Lemma wf_agent_with_Q ag q :
  wf_agent ag → shape2 q (num_states env) (num_actions env) →
  wf_agent (with_Q ag q).
Proof. intros [] Hq. by split. Qed.

(** One planning update: it returns on a well-formed agent, leaves it
    well-formed and writes the value table only. *)
Lemma plan_update_inv st st' :
  plan_update st = Some st' → st'.1 = with_Q st.1 (Q st'.1).
Proof.
  destruct st as [ag g]. unfold plan_update.
  destruct (sample ag g) as [[[[[s a] r] s1] g1]|]; [|done]. simpl.
  destruct (_update_qvals ag s a _ s1 true) as [ag'|] eqn:Hupd; [|done]. simpl.
  intros [= <-]. simpl. by apply update_qvals_Q in Hupd.
Qed.

Lemma buffer_row_at ag i :
  wf_agent ag → 0 < num_actions env → i < length (experience_buffer ag) →
  ∃ row, experience_buffer ag !! i = Some row ∧
         row.1.1.1 < num_states env ∧ row.1.1.2 < num_actions env ∧
         row_next row < num_states env.
Proof.
  intros Hwf HA Hi. rewrite (wf_buffer_length _ Hwf) in Hi.
  set (m := num_actions env) in *.
  assert (Hdiv : i = i / m * m + i mod m)
    by (rewrite (Nat.div_mod i m) at 1; lia).
  assert (Hmod : i mod m < m) by (apply Nat.mod_upper_bound; lia).
  assert (Hquot : i / m < num_states env)
    by (apply Nat.Div0.div_lt_upper_bound; lia).
  destruct (wf_buffer_rows _ Hwf (i / m) (i mod m) Hquot Hmod)
    as (row & Hrow & Hkey & Hnext).
  fold m in Hrow. rewrite <- Hdiv in Hrow.
  exists row. split; [done|]. unfold row_key in Hkey.
  injection Hkey as -> ->. done.
Qed.

Lemma plan_update_total ag g :
  wf_agent ag → 0 < num_actions env → 0 < num_states env →
  ∃ st', plan_update (ag, g) = Some st' ∧ wf_agent st'.1.
Proof.
  intros Hwf HA HS. unfold plan_update, sample.
  assert (Hlen : 0 < length (experience_buffer ag)).
  { rewrite (wf_buffer_length _ Hwf). nia. }
  rewrite decide_False by lia.
  pose proof (random_randint_lt _ g Hlen) as Hi.
  destruct (random_randint _ g) as [i g1]. simpl in Hi.
  destruct (buffer_row_at ag i Hwf HA Hi) as (row & Hrow & Hs & Ha & Hs1).
  simpl. rewrite Hrow.
  destruct row as [[[s a] r] s1]. simpl in *.
  destruct (update_qvals_total ag s a (Np.float_of_Z r) s1 true _ _
              (wf_Q _ Hwf) (wf_count _ Hwf) Hs Ha Hs1) as [ag' Hupd].
  rewrite Hupd. simpl. eexists. split; [done|]. simpl.
  rewrite (update_qvals_Q _ _ _ _ _ _ _ Hupd).
  apply wf_agent_with_Q; [done|].
  apply (update_qvals_shape _ _ _ _ _ _ _ _ _ Hupd), Hwf.
Qed.

Lemma plan_inv n st st' :
  _plan n st = Some st' → st'.1 = with_Q st.1 (Q st'.1).
Proof.
  unfold _plan, for_range.
  apply (for_each_invariant (λ x, x.1 = with_Q st.1 (Q x.1))).
  - intros _ x x' _ Hx Hstep. apply plan_update_inv in Hstep.
    rewrite Hstep, Hx. done.
  - by destruct st as [[] ?].
Qed.

Lemma plan_total n ag g :
  wf_agent ag → 0 < num_actions env → 0 < num_states env →
  ∃ st', _plan n (ag, g) = Some st' ∧ wf_agent st'.1.
Proof.
  intros Hwf HA HS. unfold _plan, for_range.
  apply (for_each_total (λ x, wf_agent x.1)); [|done].
  intros _ [ag1 g1] _ Hwf1. by apply plan_update_total.
Qed.

Lemma plan_update_shape st st' n m :
  plan_update st = Some st' → shape2 (Q st.1) n m → shape2 (Q st'.1) n m.
Proof.
  destruct st as [ag g]. unfold plan_update.
  destruct (sample ag g) as [[[[[s a] r] s1] g1]|]; [|done]. simpl.
  destruct (_update_qvals ag s a _ s1 true) as [ag'|] eqn:Hupd; [|done]. simpl.
  intros [= <-]. simpl. by apply (update_qvals_shape _ _ _ _ _ _ _ _ _ Hupd).
Qed.

Lemma plan_shape k st st' n m :
  _plan k st = Some st' → shape2 (Q st.1) n m → shape2 (Q st'.1) n m.
Proof.
  unfold _plan, for_range. intros Hplan HQ. revert Hplan.
  apply (for_each_invariant (λ x, shape2 (Q x.1) n m)); [|done].
  intros _ x x' _ Hx Hstep. by apply (plan_update_shape x).
Qed.

(** ** One real step *)

(** The loop body of [simulate] performs the nine operations of a real step
    in their order. *)
Lemma simulate_step_spec npu st st' :
  simulate_step npu st = Some st' ↔ real_step_spec npu st st'.
Proof.
  destruct st as [ag g]. unfold simulate_step, real_step_spec. simpl. split.
  - destruct (_policy ag (self_s ag) g) as [[a g1]|] eqn:Hpol; [|done].
    simpl.
    destruct (draw_next_state (self_s ag) a g1) as [[s1 g2]|] eqn:Hdraw; [|done].
    simpl.
    destruct (Np.get2 (R env) (self_s ag) a) as [r|] eqn:Hr; [|done].
    simpl.
    destruct (_update_qvals ag (self_s ag) a r s1 false) as [ag4|] eqn:H4; [|done].
    simpl.
    destruct (_update_experience_buffer ag4 (self_s ag) a r s1) as [ag5|] eqn:H5;
      [|done].
    simpl.
    destruct (_update_action_count ag5 (self_s ag) a) as [ag6|] eqn:H6; [|done].
    simpl.
    destruct npu as [n|].
    + destruct (_plan n _) as [[ag8 g8]|] eqn:H8; [|done]. simpl.
      intros [= <-].
      by exists a, g1, s1, g2, r, ag4, ag5, ag6, ag8, g8.
    + simpl. intros [= <-].
      by eexists a, g1, s1, g2, r, ag4, ag5, ag6, _, _.
  - intros (a & g1 & s1 & g2 & r & ag4 & ag5 & ag6 & ag8 & g8 &
            H1 & H2 & H3 & H4 & H5 & H6 & H8 & ->).
    rewrite H1. simpl. rewrite H2. simpl. rewrite H3. simpl.
    rewrite H4. simpl. rewrite H5. simpl. rewrite H6. simpl.
    destruct npu as [n|].
    + by rewrite H8.
    + by injection H8 as <- <-.
Qed.

Lemma draw_next_state_lt s a g s1 g' :
  draw_next_state s a g = Some (s1, g') → s1 < num_states env.
Proof.
  unfold draw_next_state.
  destruct (T env !! s ≫= (.!! a)) as [p|]; [|done]. simpl.
  case_decide as Hlen; [|done]. rewrite <- Hlen. apply random_choice_p_lt.
Qed.

Lemma draw_next_state_total s a g :
  wf_env → s < num_states env → a < num_actions env →
  is_Some (draw_next_state s a g).
Proof.
  intros Henv Hs Ha. unfold draw_next_state.
  destruct (wf_T Henv s a Hs Ha) as (p & -> & Hlen & Hp). simpl.
  by rewrite decide_True.
Qed.

(** What a real step leaves in the tables. *)
Lemma real_step_effect npu st st' :
  real_step_spec npu st st' →
  ∃ a r s1,
    (∃ row, Q st.1 !! self_s st.1 = Some row ∧ a < length row) ∧
    (∀ n m, shape2 (Q st.1) n m → shape2 (Q st'.1) n m) ∧
    Np.get2 (R env) (self_s st.1) a = Some r ∧
    history st'.1 = history st.1 ++ [(self_s st.1, a, r, s1)] ∧
    self_s st'.1 = next_position s1 ∧
    s1 < num_states env ∧
    (∃ z, Np.Z_of_float r = Some z ∧
          experience_buffer st'.1 =
            <[self_s st.1 * num_actions env + a
              := (self_s st.1, a, z, s1)]> (experience_buffer st.1)) ∧
    self_s st.1 * num_actions env + a < length (experience_buffer st.1) ∧
    ∀ i j, Np.get2 (action_count st'.1) i j =
      if decide ((i, j) = (self_s st.1, a)) then Some 0%Z
      else (λ c : Z, Np.int64_wrap (c + 1)) <$> Np.get2 (action_count st.1) i j.
Proof.
  destruct st as [ag g]. unfold real_step_spec. simpl.
  intros (a & g1 & s1 & g2 & r & ag4 & ag5 & ag6 & ag8 & g8 &
          Hpol & Hdraw & Hr & H4 & H5 & H6 & H8 & ->).
  exists a, r, s1. simpl.
  assert (Hshape : ∀ n m, shape2 (Q ag) n m → shape2 (Q ag8) n m).
  { intros n m HQ.
    apply (update_qvals_shape _ _ _ _ _ _ _ _ _ H4) in HQ.
    apply update_experience_buffer_inv in H5 as (? & _ & _ & ->).
    apply update_action_count_inv in H6 as (c & _ & ->).
    destruct npu as [k|].
    - by apply (plan_shape _ _ _ _ _ H8).
    - by injection H8 as <- <-. }
  pose proof (policy_lt _ _ _ _ _ Hpol) as Hrow.
  apply update_qvals_Q in H4.
  apply update_experience_buffer_inv in H5 as (z & Hz & Hlt & H5).
  pose proof (λ i j, update_action_count_get _ _ _ _ i j H6) as Hget.
  apply update_action_count_inv in H6 as (c & _ & H6).
  assert (H8' : ag8 = with_Q (_update_history ag6 (self_s ag) a r s1) (Q ag8)).
  { destruct npu as [n|].
    - by apply plan_inv in H8.
    - injection H8 as <- <-. by destruct ag6. }
  rewrite H8'. simpl. subst ag6 ag5. simpl in *.
  rewrite H4 in *. simpl in *.
  split_and!; try done.
  - by apply draw_next_state_lt in Hdraw.
  - by exists z.
Qed.

(** A real step returns on a well-formed agent and leaves it so. *)
Lemma simulate_step_total npu ag g :
  wf_env → wf_agent ag →
  ∃ st', simulate_step npu (ag, g) = Some st' ∧ wf_agent st'.1.
Proof.
  intros Henv Hwf. pose proof (wf_actions Henv) as HA.
  pose proof (wf_self_s _ Hwf) as Hs.
  destruct (policy_total ag (self_s ag) g _ _ (wf_Q _ Hwf) Hs HA)
    as (a & g1 & Hpol & Ha).
  destruct (draw_next_state_total (self_s ag) a g1 Henv Hs Ha) as [[s1 g2] Hdraw].
  pose proof (draw_next_state_lt _ _ _ _ _ Hdraw) as Hs1.
  destruct (get2_is_Some _ _ _ _ _ (wf_R Henv) Hs Ha) as [r Hr].
  destruct (update_qvals_total ag (self_s ag) a r s1 false _ _
              (wf_Q _ Hwf) (wf_count _ Hwf) Hs Ha Hs1) as [ag4 H4].
  assert (Hwf4 : wf_agent ag4).
  { rewrite (update_qvals_Q _ _ _ _ _ _ _ H4). apply wf_agent_with_Q; [done|].
    apply (update_qvals_shape _ _ _ _ _ _ _ _ _ H4), Hwf. }
  pose proof (wf_int64 Henv) as [HS64 HA64].
  destruct (update_experience_buffer_total ag4 (self_s ag) a r s1
              (wf_buffer_length _ Hwf4) Hs Ha ltac:(lia) ltac:(lia) ltac:(lia)
              (wf_rewards Henv _ _ _ Hr)) as [ag5 H5].
  pose proof (update_experience_buffer_inv _ _ _ _ _ _ H5)
    as (z & Hz & Hlt5 & Heq5).
  destruct (update_action_count_total ag5 (self_s ag) a _ _
              ltac:(rewrite Heq5; apply (wf_count _ Hwf4)) Hs Ha) as [ag6 H6].
  assert (Hwf7 : wf_agent (_update_history ag6 (self_s ag) a r s1)).
  { pose proof (update_action_count_shape _ _ _ _ _ _ H6
                  ltac:(rewrite Heq5; apply (wf_count _ Hwf4))) as HC6.
    apply update_action_count_inv in H6 as (c & _ & ->).
    subst ag5. simpl in *. destruct Hwf4 as [HQ4 HC4 Hlen4 Hrows4 Hs4].
    split; simpl; try done.
    - by rewrite length_insert.
    - intros s' a' Hs' Ha'.
      destruct (decide (s' * num_actions env + a'
                        = self_s ag * num_actions env + a)) as [Heq|Hne].
      + apply row_index_inj in Heq as [-> ->]; [|done..].
        eexists. rewrite list_lookup_insert_eq by done. done.
      + rewrite list_lookup_insert_ne by done. by apply Hrows4. }
  assert (∃ ag8 g8,
    match npu with
    | Some n => _plan n (_update_history ag6 (self_s ag) a r s1, g2)
                = Some (ag8, g8)
    | None => (_update_history ag6 (self_s ag) a r s1, g2) = (ag8, g8)
    end ∧ wf_agent ag8) as (ag8 & g8 & H8 & Hwf8).
  { destruct npu as [n|].
    - destruct (plan_total n _ g2 Hwf7 HA ltac:(lia)) as ([ag8 g8] & H8 & Hwf8).
      by exists ag8, g8.
    - by eexists _, _. }
  eexists. split.
  - apply simulate_step_spec. unfold real_step_spec. simpl.
    by exists a, g1, s1, g2, r, ag4, ag5, ag6, ag8, g8.
  - simpl. destruct Hwf8. split; simpl; try done.
    case_decide; [apply (wf_start Henv)|done].
Qed.

(** ** Runs *)

Lemma for_each_real_steps npu (l : list nat) st st' :
  for_each l (λ _, simulate_step npu) st = Some st' ↔
  real_steps npu (length l) st st'.
Proof.
  revert st. induction l as [|i l IH]; intros st; simpl.
  - split.
    + intros [= <-]. constructor.
    + intros Hrun. by inversion Hrun.
  - split.
    + destruct (simulate_step npu st) as [st1|] eqn:Hstep; [|done]. simpl.
      intros Hrun. apply (real_steps_S _ _ _ st1).
      * by apply simulate_step_spec.
      * by apply IH.
    + intros Hrun. inversion Hrun as [|n st0 st1 st2 Hstep Hrest]; subst.
      apply simulate_step_spec in Hstep. rewrite Hstep. simpl. by apply IH.
Qed.

Lemma simulate_real_steps num_trials reset_agent npu ag g st' :
  simulate num_trials reset_agent npu ag g = Some st' ↔
  ∃ ag0, (if reset_agent then reset ag else Some ag) = Some ag0 ∧
         real_steps npu (Z.to_nat num_trials) (ag0, g) st'.
Proof.
  unfold simulate, for_range.
  destruct (if reset_agent then reset ag else Some ag) as [ag0|]; simpl.
  - rewrite for_each_real_steps, length_seq. split.
    + intros Hrun. by exists ag0.
    + by intros (ag0' & [= <-] & Hrun).
  - split; [done|]. by intros (ag0' & ? & _).
Qed.

Lemma real_steps_total npu n ag g :
  wf_env → wf_agent ag →
  ∃ st', real_steps npu n (ag, g) st' ∧ wf_agent st'.1.
Proof.
  intros Henv. revert ag g. induction n as [|n IH]; intros ag g Hwf.
  - exists (ag, g). split; [constructor|done].
  - destruct (simulate_step_total npu ag g Henv Hwf) as ([ag1 g1] & Hstep & Hwf1).
    destruct (IH ag1 g1 Hwf1) as (st' & Hrun & Hwf').
    exists st'. split; [|done].
    apply (real_steps_S _ _ _ (ag1, g1)); [|done]. by apply simulate_step_spec.
Qed.

(** A run returns: from any agent when it resets, from a well-formed one
    when it continues. *)
Lemma simulate_total num_trials reset_agent npu ag g :
  wf_env → start_ok reset_agent ag →
  ∃ ag0 st',
    (if reset_agent then reset ag else Some ag) = Some ag0 ∧ wf_agent ag0 ∧
    simulate num_trials reset_agent npu ag g = Some st' ∧
    real_steps npu (Z.to_nat num_trials) (ag0, g) st' ∧ wf_agent st'.1.
Proof.
  intros Henv Hstart.
  assert (∃ ag0, (if reset_agent then reset ag else Some ag) = Some ag0
                 ∧ wf_agent ag0) as (ag0 & Hag0 & Hwf0).
  { destruct reset_agent.
    - destruct (reset_spec ag) as (ag0 & Hreset & _).
      exists ag0. split; [done|]. apply (reset_wf ag); [apply Henv|done].
    - destruct Hstart as [?|Hwf]; [done|]. by exists ag. }
  destruct (real_steps_total npu (Z.to_nat num_trials) ag0 g Henv Hwf0)
    as (st' & Hrun & Hwf').
  exists ag0, st'. split_and!; try done.
  apply simulate_real_steps. by exists ag0.
Qed.

Lemma real_steps_invariant (P : Agent → Prop) npu n st st' :
  (∀ x x', P x.1 → real_step_spec npu x x' → P x'.1) →
  real_steps npu n st st' → P st.1 → P st'.1.
Proof.
  intros Hstep Hrun. induction Hrun as [|n st st1 st' H1 _ IH]; [done|].
  intros Hst. apply IH. by apply (Hstep st).
Qed.

Lemma real_steps_walk npu n st st' :
  real_steps npu n st st' →
  ∃ log, length log = n ∧ history st'.1 = history st.1 ++ log ∧
         walk (self_s st.1) log (self_s st'.1).
Proof.
  induction 1 as [st|n st st1 st' Hstep _ (log & Hlen & Hhist & Hwalk)].
  - exists []. split_and!; [done|by rewrite app_nil_r|constructor].
  - destruct (real_step_effect _ _ _ Hstep)
      as (a & r & s1 & _ & _ & Hr & Hh1 & Hs1 & Hlt & _).
    exists ((self_s st.1, a, r, s1) :: log). split_and!.
    + simpl. by rewrite Hlen.
    + rewrite Hhist, Hh1. by rewrite <- app_assoc.
    + constructor; [done..|]. by rewrite Hs1 in Hwalk.
Qed.

(** C2. In an environment that meets the contract ([wf_env]: the sizes,
    the distributions, and rewards that the integer experience buffer can
    hold), a call of [simulate] with [n] trials returns after exactly [n]
    real steps.  Each of them performs, in this order: policy selection,
    the draw of the next state, the reward lookup, the value update without
    bonus, the record in the experience model, the touch of the recency
    counter, the append to the history and, when a planning budget is given,
    the planning updates ([real_steps]).  The history grows by exactly [n] rows,
    each of which leaves from the current state; the next current state is
    the start state when the state reached is the goal and the state reached
    otherwise ([walk]).  Reaching the goal never ends the run early: the
    count of steps does not depend on the states met. *)
Theorem simulate_performs_exactly_n_real_steps (n : nat) reset_agent npu ag g :
  wf_env → start_ok reset_agent ag →
  ∃ ag0 st' log,
    (if reset_agent then reset ag else Some ag) = Some ag0 ∧
    simulate (Z.of_nat n) reset_agent npu ag g = Some st' ∧
    real_steps npu n (ag0, g) st' ∧
    length log = n ∧ history st'.1 = history ag0 ++ log ∧
    walk (self_s ag0) log (self_s st'.1).
Proof.
  intros Henv Hstart.
  destruct (simulate_total (Z.of_nat n) reset_agent npu ag g Henv Hstart)
    as (ag0 & st' & Hag0 & _ & Hsim & Hrun & _).
  rewrite Nat2Z.id in Hrun.
  destruct (real_steps_walk _ _ _ _ Hrun) as (log & Hlen & Hhist & Hwalk).
  by exists ag0, st', log.
Qed.

(** ** The recency counter along a run *)

Lemma counter_inv_reset ag ag0 : reset ag = Some ag0 → counter_inv ag0.
Proof.
  intros Hreset.
  destruct (reset_spec ag) as (ag0' & Hreset' & _ & HC & HH & _).
  assert (ag0' = ag0) as -> by congruence.
  intros s a k Hs Ha Hel. rewrite HH in Hel. apply elapsed_nil in Hel as ->.
  rewrite HC. by apply get2_full2.
Qed.

Lemma counter_inv_step npu st st' :
  counter_inv st.1 → real_step_spec npu st st' → counter_inv st'.1.
Proof.
  intros Hinv Hstep.
  destruct (real_step_effect _ _ _ Hstep)
    as (a0 & r & s1 & _ & _ & _ & Hhist & _ & _ & _ & _ & Hget).
  intros s a k Hs Ha Hel. rewrite Hhist in Hel. rewrite Hget.
  case_decide as Heq.
  - injection Heq as -> ->.
    apply elapsed_snoc_chosen in Hel as ->; done.
  - apply elapsed_snoc_other in Hel as (k' & -> & Hel).
    + rewrite (Hinv s a k' Hs Ha Hel). simpl. f_equal.
      rewrite int64_wrap_succ. f_equal. lia.
    + unfold chosen. simpl. intros [<- <-]. done.
Qed.

(** C3. Along every run in an environment that meets the contract
    ([wf_env], rewards that can be cast to [int64] included) the recency
    counter of every pair [(s, a)] is the number of real steps elapsed since
    the pair was last chosen, or since the reset when it never was, as the
    history of the real steps since the reset tells it ([elapsed]): the
    [int64] entry holds that number, wrapped as numpy does, which is the
    number itself as long as fewer than [2^63] steps have elapsed.  The
    touch of a real step that maintains it increments every entry, then
    zeroes the entry of the pair just taken. *)
Theorem recency_counter_counts_steps_since_last_choice
  num_trials reset_agent npu ag g :
  wf_env →
  reset_agent = true ∨ (wf_agent ag ∧ counter_inv ag) →
  (∃ st', simulate num_trials reset_agent npu ag g = Some st' ∧
     ∀ s a k, s < num_states env → a < num_actions env →
       elapsed s a (history st'.1) k →
       Np.get2 (action_count st'.1) s a = Some (Np.int64_wrap (Z.of_nat k)) ∧
       ((Z.of_nat k < 2 ^ 63)%Z →
        Np.get2 (action_count st'.1) s a = Some (Z.of_nat k))) ∧
  (∀ ag1 s a ag2 i j, _update_action_count ag1 s a = Some ag2 →
     Np.get2 (action_count ag2) i j =
       if decide ((i, j) = (s, a)) then Some 0%Z
       else (λ c : Z, Np.int64_wrap (c + 1))
              <$> Np.get2 (action_count ag1) i j).
Proof.
  intros Henv Hstart. split; [|by apply update_action_count_get].
  destruct (simulate_total num_trials reset_agent npu ag g Henv)
    as (ag0 & st' & Hag0 & _ & Hsim & Hrun & _).
  { destruct Hstart as [?|[? _]]; [by left|by right]. }
  exists st'. split; [done|].
  assert (Hinv0 : counter_inv ag0).
  { destruct reset_agent.
    - by apply (counter_inv_reset ag).
    - destruct Hstart as [?|[_ Hinv]]; [done|]. by injection Hag0 as <-. }
  assert (Hinv : counter_inv st'.1).
  { apply (real_steps_invariant counter_inv _ _ _ _
             (counter_inv_step npu) Hrun Hinv0). }
  intros s a k Hs Ha Hel. pose proof (Hinv s a k Hs Ha Hel) as Hget.
  split; [done|]. intros Hk. rewrite Hget. f_equal.
  apply int64_wrap_small. lia.
Qed.


(** ** The experience model *)

Lemma buffer_inv_insert ag s a r s1 :
  buffer_inv ag → a < num_actions env →
  buffer_inv (with_experience_buffer ag
                (<[s * num_actions env + a := (s, a, r, s1)]>
                   (experience_buffer ag))).
Proof.
  intros (HQ & Hlen & Hrows) Ha. split_and!; simpl.
  - done.
  - by rewrite length_insert.
  - intros s' a' Hs' Ha'.
    destruct (decide (s' * num_actions env + a' = s * num_actions env + a))
      as [Heq|Hne].
    + pose proof Heq as Heq'. apply row_index_inj in Heq' as [-> ->]; [|done..].
      destruct (Hrows s a Hs' Ha) as (row & Hrow & _).
      eexists. rewrite list_lookup_insert_eq; [done|].
      by apply lookup_lt_Some in Hrow.
    + rewrite list_lookup_insert_ne by done. by apply Hrows.
Qed.

Lemma reachable_buffer_inv ag : reachable ag → buffer_inv ag.
Proof.
  induction 1 as [ag ag0 Hreset|ag s a r s1 ag' _ IH Hs Ha Hrec
                  |ag g n st' _ IH Hplan|ag g npu st' _ IH Hstep].
  - destruct (reset_spec ag) as (ag0' & Hreset' & HQ & _ & _ & _ & Hlen & Hrows).
    assert (ag0' = ag0) as -> by congruence.
    split_and!; [rewrite HQ; apply shape2_full2|done|].
    intros s a Hs Ha. exists (s, a, 0%Z, s). by rewrite Hrows.
  - apply update_experience_buffer_inv in Hrec as (z & _ & _ & ->).
    by apply buffer_inv_insert.
  - destruct IH as (HQ & Hlen & Hrows).
    pose proof (plan_shape _ _ _ _ _ Hplan HQ) as HQ'.
    apply plan_inv in Hplan. rewrite Hplan. by split_and!.
  - apply simulate_step_spec in Hstep.
    destruct (real_step_effect _ _ _ Hstep)
      as (a & r & s1 & (row & Hrow & Ha) & Hshape & _ & _ & _ & _
          & (z & _ & Hbuf) & _).
    simpl in *. pose proof IH as (HQ & Hlen & Hrows).
    assert (a < num_actions env).
    { destruct HQ as [_ HQ]. by rewrite <- (Forall_lookup_1 _ _ _ _ HQ Hrow). }
    destruct (buffer_inv_insert ag (self_s ag) a z s1 IH)
      as (_ & Hlen' & Hrows'); [done|]. simpl in *.
    split_and!; [by apply Hshape|by rewrite Hbuf|by rewrite Hbuf].
Qed.

(** C6. After a reset the experience model holds, for every pair [(s, a)],
    the self-loop of reward 0 (the row [(s, a, 0, s)]); and at every later
    point (whatever was recorded, planned or stepped since) it still has one
    row for each of the [num_states * num_actions] pairs, so that the row
    index a [sample()] draws always designates a stored transition. *)
Theorem experience_model_has_every_pair :
  (∀ ag, ∃ ag0, reset ag = Some ag0 ∧
     ∀ s a, s < num_states env → a < num_actions env →
       experience_buffer ag0 !! (s * num_actions env + a)
       = Some (s, a, 0%Z, s)) ∧
  (∀ ag, reachable ag →
     length (experience_buffer ag) = num_states env * num_actions env ∧
     (∀ s a, s < num_states env → a < num_actions env →
        is_Some (experience_buffer ag !! (s * num_actions env + a))) ∧
     (∀ g, 0 < num_states env * num_actions env → is_Some (sample ag g))).
Proof.
  split.
  - intros ag. destruct (reset_spec ag) as (ag0 & Hreset & _ & _ & _ & _ & _ & Hrows).
    by exists ag0.
  - intros ag (HQ & Hlen & Hrows)%reachable_buffer_inv. split_and!; [done|..].
    + intros s a Hs Ha. destruct (Hrows s a Hs Ha) as (row & -> & _). by eexists.
    + intros g Hpos. unfold sample. rewrite decide_False by lia.
      pose proof (random_randint_lt (length (experience_buffer ag)) g
                    ltac:(lia)) as Hi.
      destruct (random_randint _ g) as [i g1]. simpl in *.
      destruct (lookup_lt_is_Some_2 _ _ Hi) as [row ->]. by eexists.
Qed.

(** C10. After a reset and any sequence of records of valid pairs, planning
    updates and real steps, the buffer row of index [s * num_actions + a]
    stores [s] in its state column and [a] in its action column; hence the
    key of every stored row gives back the position of the row, and the
    transition a planning draw replays is that of the pair at the index
    drawn. *)
Theorem experience_buffer_rows_keep_their_keys ag :
  reachable ag →
  (∀ s a, s < num_states env → a < num_actions env →
     ∃ r s1, experience_buffer ag !! (s * num_actions env + a)
             = Some (s, a, r, s1)) ∧
  (∀ i s a r s1, experience_buffer ag !! i = Some (s, a, r, s1) →
     s < num_states env ∧ a < num_actions env ∧ i = s * num_actions env + a) ∧
  (∀ g s a r s1 g', sample ag g = Some ((s, a, r, s1), g') →
     experience_buffer ag !! (s * num_actions env + a) = Some (s, a, r, s1)).
Proof.
  intros (HQ & Hlen & Hrows)%reachable_buffer_inv.
  assert (Hkey : ∀ i s a r s1, experience_buffer ag !! i = Some (s, a, r, s1) →
     s < num_states env ∧ a < num_actions env ∧ i = s * num_actions env + a).
  { intros i s a r s1 Hi. pose proof (lookup_lt_Some _ _ _ Hi) as Hlt.
    rewrite Hlen in Hlt. set (m := num_actions env) in *.
    assert (0 < m) by (destruct m; lia).
    assert (Hdiv : i = i / m * m + i mod m)
      by (rewrite (Nat.div_mod i m) at 1; lia).
    assert (Hmod : i mod m < m) by (apply Nat.mod_upper_bound; lia).
    assert (Hquot : i / m < num_states env)
      by (apply Nat.Div0.div_lt_upper_bound; lia).
    destruct (Hrows (i / m) (i mod m) Hquot Hmod) as (row & Hrow & Hk).
    fold m in Hrow. rewrite <- Hdiv, Hi in Hrow. injection Hrow as <-.
    unfold row_key in Hk. simpl in Hk. injection Hk as -> ->. done. }
  split_and!; [|done|].
  - intros s a Hs Ha. destruct (Hrows s a Hs Ha) as ([[[s' a'] r] s1] & Hrow & Hk).
    unfold row_key in Hk. simpl in Hk. injection Hk as -> ->. by exists r, s1.
  - intros g s a r s1 g'. unfold sample. case_decide; [done|].
    destruct (random_randint _ g) as [i g1]. simpl.
    destruct (experience_buffer ag !! i) as [row|] eqn:Hi; [|done]. simpl.
    intros [= -> <-]. by destruct (Hkey _ _ _ _ _ Hi) as (_ & _ & <-).
Qed.

(** C8. The planning updates of a step return on a well-formed agent and
    leave the experience model, the recency counter, the history and the
    current real state as they were: planning writes the value table only. *)
Theorem planning_writes_only_the_value_table n ag g :
  wf_agent ag → 0 < num_actions env →
  ∃ st', _plan n (ag, g) = Some st' ∧
    experience_buffer st'.1 = experience_buffer ag ∧
    action_count st'.1 = action_count ag ∧
    history st'.1 = history ag ∧
    self_s st'.1 = self_s ag.
Proof.
  intros Hwf HA.
  destruct (plan_total n ag g Hwf HA) as (st' & Hplan & _).
  { pose proof (wf_self_s _ Hwf). lia. }
  exists st'. split; [done|]. apply plan_inv in Hplan. by rewrite Hplan.
Qed.

(** ** The cast of a reward

    An integer below [2^53] in absolute value is a float, and the cast of
    that float back to [int64] is the integer. *)

Lemma digits2_pos_bounds p :
  (2 ^ (Z.pos (digits2_pos p) - 1) ≤ Z.pos p < 2 ^ Z.pos (digits2_pos p))%Z.
Proof.
  induction p as [p IH|p IH|]; simpl digits2_pos.
  - rewrite Pos2Z.inj_succ.
    replace (Z.succ (Z.pos (digits2_pos p)) - 1)%Z
      with (Z.succ (Z.pos (digits2_pos p) - 1))%Z by lia.
    rewrite !Z.pow_succ_r by lia. lia.
  - rewrite Pos2Z.inj_succ.
    replace (Z.succ (Z.pos (digits2_pos p)) - 1)%Z
      with (Z.succ (Z.pos (digits2_pos p) - 1))%Z by lia.
    rewrite !Z.pow_succ_r by lia. lia.
  - simpl. lia.
Qed.

Lemma iter_xO_value p k : Z.pos (Pos.iter xO p k) = (Z.pos p * 2 ^ Z.pos k)%Z.
Proof.
  induction k as [|k IH] using Pos.peano_ind.
  - simpl. lia.
  - rewrite Pos.iter_succ, Pos2Z.inj_succ, Z.pow_succ_r by lia.
    rewrite Pos2Z.inj_xO, IH. lia.
Qed.

Lemma iter_xO_digits p k :
  digits2_pos (Pos.iter xO p k) = (digits2_pos p + k)%positive.
Proof.
  induction k as [|k IH] using Pos.peano_ind.
  - simpl. lia.
  - rewrite Pos.iter_succ. simpl. rewrite IH. lia.
Qed.

Lemma binary_round_aux_exact s m e :
  fexp prec emax (Z.pos (digits2_pos m) + e) = e → (e ≤ emax - prec)%Z →
  binary_round_aux prec emax s (Z.pos m) e loc_Exact = S754_finite s m e.
Proof.
  intros Hfexp He. unfold binary_round_aux, shr_fexp. simpl Zdigits2.
  rewrite Hfexp, Z.sub_diag. simpl. rewrite Hfexp, Z.sub_diag. simpl.
  destruct (Z.leb_spec e (emax - prec)); [done|lia].
Qed.

Lemma binary_round_small s p :
  (Z.pos p < 2 ^ 53)%Z →
  ∃ m e, binary_round prec emax s p 0 = S754_finite s m e ∧
         valid_binary (S754_finite s m e) = true ∧
         (-52 ≤ e ≤ 0)%Z ∧ (Z.pos m = Z.pos p * 2 ^ (- e))%Z.
Proof.
  intros Hp. pose proof (digits2_pos_bounds p) as [Hlo Hhi].
  assert (Hd : (Z.pos (digits2_pos p) ≤ 53)%Z).
  { destruct (Z_le_gt_dec (Z.pos (digits2_pos p)) 53) as [?|Hgt]; [done|].
    assert (2 ^ 53 ≤ 2 ^ (Z.pos (digits2_pos p) - 1))%Z
      by (apply Z.pow_le_mono_r; lia).
    lia. }
  assert (Hfexp : fexp prec emax (Z.pos (digits2_pos p) + 0)
                  = (Z.pos (digits2_pos p) - 53)%Z).
  { unfold fexp, emin, prec, emax. lia. }
  unfold binary_round, shl_align. rewrite Hfexp, Z.sub_0_r.
  destruct (Z.pos (digits2_pos p) - 53)%Z as [|q|q] eqn:Hq; [|lia|].
  - assert (Hcanon : fexp prec emax (Z.pos (digits2_pos p) + 0) = 0%Z)
      by by rewrite Hfexp.
    exists p, 0%Z. rewrite binary_round_aux_exact by (done || (unfold emax, prec; lia)).
    split; [done|]. split; [|lia].
    unfold valid_binary, bounded, canonical_mantissa. rewrite Hcanon. done.
  - assert (Hcanon : fexp prec emax (Z.pos (digits2_pos (Pos.iter xO p q))
                                     + Z.neg q) = Z.neg q).
    { rewrite iter_xO_digits. unfold fexp, emin, prec, emax. lia. }
    exists (Pos.iter xO p q), (Z.neg q).
    rewrite binary_round_aux_exact by (done || (unfold emax, prec; lia)).
    split; [done|]. split; [|split; [lia|]].
    + unfold valid_binary, bounded, canonical_mantissa. rewrite Hcanon.
      rewrite Z.eqb_refl. done.
    + rewrite iter_xO_value. done.
Qed.

Lemma Z_of_float_of_Z z :
  (Z.abs z < 2 ^ 53)%Z → Np.Z_of_float (Np.float_of_Z z) = Some z.
Proof.
  intros Hz. unfold Np.Z_of_float, Np.float_of_Z.
  destruct z as [|p|p]; simpl binary_normalize.
  - reflexivity.
  - destruct (binary_round_small false p) as (m & e & -> & Hv & He & Hm); [lia|].
    rewrite Prim2SF_SF2Prim by done.
    assert (Hval : (if (0 <=? e)%Z then Z.pos m * 2 ^ e else Z.pos m / 2 ^ (- e))%Z = Z.pos p).
    { destruct (Z.leb_spec 0 e).
      - assert (e = 0%Z) as -> by lia. simpl in *. lia.
      - rewrite Hm. apply Z.div_mul. apply Z.pow_nonzero; lia. }
    cbv zeta. rewrite Hval.
    destruct (Z.leb_spec (- 2 ^ 63) (Z.pos p)); [|lia].
    destruct (Z.ltb_spec (Z.pos p) (2 ^ 63)); [done|lia].
  - destruct (binary_round_small true p) as (m & e & -> & Hv & He & Hm); [lia|].
    rewrite Prim2SF_SF2Prim by done.
    assert (Hval : (if (0 <=? e)%Z then Z.pos m * 2 ^ e else Z.pos m / 2 ^ (- e))%Z = Z.pos p).
    { destruct (Z.leb_spec 0 e).
      - assert (e = 0%Z) as -> by lia. simpl in *. lia.
      - rewrite Hm. apply Z.div_mul. apply Z.pow_nonzero; lia. }
    cbv zeta. rewrite Hval.
    destruct (Z.leb_spec (- 2 ^ 63) (- Z.pos p)); [|lia].
    destruct (Z.ltb_spec (- Z.pos p) (2 ^ 63)); [done|lia].
Qed.

(** C4 (as amended).  A record of [(s, a, r, s1)] for a valid pair, with
    indices that fit [int64], returns exactly when the reward can be cast to
    the integer type of the buffer: on nan, on an infinity and on a reward
    whose integer part is outside [int64] it raises.  When it returns it has
    stored, at the position of the pair, the row [(s, a, int(r), s1)], and
    a [sample()] that draws the pair returns that row: the next state as
    recorded, the reward truncated, nothing averaged.  Every other row is as
    it was.  An integer reward below [2^53] in absolute value is cast to
    itself, so it is returned as it was recorded. *)
Theorem record_then_sample_returns_the_cast_reward ag s a r s1 :
  length (experience_buffer ag) = num_states env * num_actions env →
  s < num_states env → a < num_actions env →
  (Z.of_nat s < 2 ^ 63)%Z → (Z.of_nat a < 2 ^ 63)%Z →
  (Z.of_nat s1 < 2 ^ 63)%Z →
  (Np.Z_of_float r = None → _update_experience_buffer ag s a r s1 = None) ∧
  (∀ z, Np.Z_of_float r = Some z →
     ∃ ag', _update_experience_buffer ag s a r s1 = Some ag' ∧
       experience_buffer ag' !! (s * num_actions env + a)
       = Some (s, a, z, s1) ∧
       (∀ i, i ≠ s * num_actions env + a →
          experience_buffer ag' !! i = experience_buffer ag !! i) ∧
       (∀ g, (random_randint (length (experience_buffer ag')) g).1
             = s * num_actions env + a →
          sample ag' g
          = Some ((s, a, z, s1),
                  (random_randint (length (experience_buffer ag')) g).2))) ∧
  (∀ z, (Z.abs z < 2 ^ 53)%Z → r = Np.float_of_Z z →
     Np.Z_of_float r = Some z).
Proof.
  intros Hlen Hs Ha Hs64 Ha64 Hs164. split_and!.
  - intros Hnone.
    destruct (_update_experience_buffer ag s a r s1) as [ag'|] eqn:Hrec;
      [|done].
    apply update_experience_buffer_inv in Hrec as (z & Hz & _). congruence.
  - intros z Hz.
    destruct (update_experience_buffer_total ag s a r s1 Hlen Hs Ha
                Hs64 Ha64 Hs164) as [ag' Hrec]; [by exists z|].
    exists ag'. split; [done|].
    apply update_experience_buffer_inv in Hrec as (z' & Hz' & Hlt & ->).
    assert (z' = z) as -> by congruence. simpl.
    assert (Hrow : <[s * num_actions env + a := (s, a, z, s1)]>
                     (experience_buffer ag) !! (s * num_actions env + a)
                   = Some (s, a, z, s1))
      by by apply list_lookup_insert_eq.
    split_and!; [done|..].
    + intros i Hi. by apply list_lookup_insert_ne.
    + intros g Hdraw. unfold sample. simpl.
      rewrite decide_False by (rewrite length_insert; lia).
      destruct (random_randint _ g) as [i g1]. simpl in *. subst i.
      by rewrite Hrow.
  - intros z Hz ->. by apply Z_of_float_of_Z.
Qed.

(** ** Performance *)

Lemma cumsum_from_length acc l : length (Np.cumsum_from acc l) = length l.
Proof.
  revert acc. induction l as [|x l IH]; intros acc; simpl; [done|].
  by rewrite IH.
Qed.

Lemma cumsum_from_lookup acc l k :
  k < length l →
  Np.cumsum_from acc l !! k
  = Some (foldl (λ acc x, (acc + x)%float) acc (take (S k) l)).
Proof.
  revert acc k. induction l as [|x l IH]; intros acc k Hk; simpl in *; [lia|].
  destruct k as [|k]; simpl.
  - by destruct l.
  - rewrite IH by lia. done.
Qed.

Lemma cumsum_length l : length (Np.cumsum l) = length l.
Proof. destruct l; simpl; [done|]. by rewrite cumsum_from_length. Qed.

Lemma cumsum_lookup l k :
  k < length l →
  ∃ r rs, take (S k) l = r :: rs ∧
          Np.cumsum l !! k = Some (foldl (λ acc x, (acc + x)%float) r rs).
Proof.
  destruct l as [|r l]; simpl; [lia|]. intros Hk.
  exists r, (take k l). split; [done|].
  destruct k as [|k]; simpl; [done|].
  by rewrite cumsum_from_lookup by lia.
Qed.

(** C7. The performance report has one value per logged real step, and its
    [k]-th value (counting from 1) is the sum of the rewards of the first
    [k] logged transitions, added in log order. *)
Theorem get_performace_is_the_prefix_sum_of_rewards ag :
  length (get_performace ag) = length (history ag) ∧
  ∀ k, k < length (history ag) →
    ∃ total, reward_sum (history ag) (S k) = Some total ∧
             get_performace ag !! k = Some total.
Proof.
  unfold get_performace, reward_sum.
  split; [by rewrite cumsum_length, length_map|]. intros k Hk.
  destruct (cumsum_lookup (map (λ row : HistoryRow, row.1.2) (history ag)) k)
    as (r & rs & Htake & Hsum); [by rewrite length_map|].
  rewrite Htake. by eexists.
Qed.

(** ** Comparing floats

    The order of binary64 values, from the specification of the primitive
    comparisons: a total preorder away from nan, which compares with
    nothing. *)

Ltac cmp_cases :=
  repeat match goal with
  | H : context [Pos.compare_cont Eq ?a ?b] |- _ =>
      change (Pos.compare_cont Eq a b) with (Pos.compare a b) in H
  | |- context [Pos.compare_cont Eq ?a ?b] =>
      change (Pos.compare_cont Eq a b) with (Pos.compare a b)
  | H : context [Z.compare ?a ?b] |- _ => destruct (Z.compare_spec a b)
  | |- context [Z.compare ?a ?b] => destruct (Z.compare_spec a b)
  | H : context [Pos.compare ?a ?b] |- _ => destruct (Pos.compare_spec a b)
  | |- context [Pos.compare ?a ?b] => destruct (Pos.compare_spec a b)
  end;
  simpl in *; try congruence; try lia.

Lemma SFcompare_refl x : SFcompare x x = None ∨ SFcompare x x = Some Eq.
Proof.
  destruct x as [s|s| |s m e]; simpl; auto.
  - destruct s; auto.
  - right. destruct s; rewrite Z.compare_refl;
      change (Pos.compare_cont Eq m m) with (Pos.compare m m);
      by rewrite Pos.compare_refl.
Qed.

Lemma SFcompare_antisym x y : SFcompare y x = CompOpp <$> SFcompare x y.
Proof.
  destruct x as [s|s| |s m e], y as [s'|s'| |s' m' e']; simpl; try done;
    try (by destruct s); try (by destruct s'); try (by destruct s, s').
  destruct s, s'; simpl; try done;
    rewrite (Z.compare_antisym e e');
    change (Pos.compare_cont Eq m' m) with (Pos.compare m' m);
    change (Pos.compare_cont Eq m m') with (Pos.compare m m');
    rewrite (Pos.compare_antisym m m');
    by destruct (e ?= e')%Z.
Qed.

Lemma SFcompare_trans x y z c1 c2 :
  SFcompare x y = Some c1 → SFcompare y z = Some c2 →
  c1 ≠ Gt → c2 ≠ Gt →
  SFcompare x z = Some (match c1 with Eq => c2 | _ => Lt end).
Proof.
  destruct x as [s|s| |s m e], y as [s'|s'| |s' m' e'],
           z as [s''|s''| |s'' m'' e''];
    simpl; intros H1 H2 N1 N2; try done;
    repeat match goal with b : bool |- _ => destruct b end;
    simpl in *; try congruence;
    try (injection H1 as <-; injection H2 as <-; cmp_cases; fail).
Qed.

Lemma SFcompare_None x y :
  SFcompare x y = None → SFcompare x x = None ∨ SFcompare y y = None.
Proof.
  destruct x as [s|s| |s m e], y as [s'|s'| |s' m' e']; simpl; auto;
    try done.
Qed.

Lemma feqb_fcmp x y :
  (x =? y)%float = match fcmp x y with Some Eq => true | _ => false end.
Proof. apply FloatAxioms.eqb_spec. Qed.

Lemma fltb_fcmp x y :
  (x <? y)%float = match fcmp x y with Some Lt => true | _ => false end.
Proof. apply FloatAxioms.ltb_spec. Qed.

Lemma fleb_fcmp x y :
  (x <=? y)%float
  = match fcmp x y with Some (Lt | Eq) => true | _ => false end.
Proof. apply FloatAxioms.leb_spec. Qed.

Lemma is_nan_fcmp x :
  is_nan x = match fcmp x x with Some _ => false | None => true end.
Proof.
  unfold is_nan. rewrite feqb_fcmp. unfold fcmp.
  by destruct (SFcompare_refl (Prim2SF x)) as [-> | ->].
Qed.

Lemma fcmp_antisym x y : fcmp y x = CompOpp <$> fcmp x y.
Proof. apply SFcompare_antisym. Qed.

Lemma fcmp_total x y :
  is_nan x = false → is_nan y = false → is_Some (fcmp x y).
Proof.
  rewrite !is_nan_fcmp. intros Hx Hy.
  destruct (fcmp x y) eqn:Hxy; [by eexists|].
  apply SFcompare_None in Hxy as [Hn|Hn]; unfold fcmp in *;
    by rewrite Hn in *.
Qed.

Lemma fcmp_Some_not_nan x y c :
  fcmp x y = Some c → is_nan x = false ∧ is_nan y = false.
Proof.
  intros Hxy. rewrite !is_nan_fcmp. unfold fcmp in *.
  destruct (SFcompare_refl (Prim2SF x)) as [Hx|Hx],
           (SFcompare_refl (Prim2SF y)) as [Hy|Hy];
    rewrite ?Hx, ?Hy; try done;
    destruct (Prim2SF x), (Prim2SF y); simpl in *; done.
Qed.

Lemma feqb_sym x y : (x =? y)%float = (y =? x)%float.
Proof.
  rewrite !feqb_fcmp, (fcmp_antisym x y). by destruct (fcmp x y) as [[]|].
Qed.

Lemma feqb_trans x y z :
  (x =? y)%float = true → (y =? z)%float = true → (x =? z)%float = true.
Proof.
  rewrite !feqb_fcmp.
  destruct (fcmp x y) as [[]|] eqn:Hxy; try done.
  destruct (fcmp y z) as [[]|] eqn:Hyz; try done. intros _ _.
  unfold fcmp in *. by rewrite (SFcompare_trans _ _ _ _ _ Hxy Hyz).
Qed.

Lemma fleb_feqb_trans x y z :
  (x <=? y)%float = true → (y =? z)%float = true → (x <=? z)%float = true.
Proof.
  rewrite !fleb_fcmp, feqb_fcmp.
  destruct (fcmp x y) as [c1|] eqn:Hxy; [|done].
  destruct (fcmp y z) as [[]|] eqn:Hyz; try done. intros H1 _.
  unfold fcmp in *.
  rewrite (SFcompare_trans _ _ _ _ _ Hxy Hyz); [|by destruct c1|done].
  by destruct c1.
Qed.

Lemma fleb_fltb_trans x y z :
  (x <=? y)%float = true → (y <? z)%float = true → (x <? z)%float = true.
Proof.
  rewrite fleb_fcmp, !fltb_fcmp.
  destruct (fcmp x y) as [c1|] eqn:Hxy; [|done].
  destruct (fcmp y z) as [[]|] eqn:Hyz; try done. intros H1 _.
  unfold fcmp in *.
  rewrite (SFcompare_trans _ _ _ _ _ Hxy Hyz); [|by destruct c1|done].
  by destruct c1.
Qed.

Lemma fltb_feqb_trans x y z :
  (x <? y)%float = true → (y =? z)%float = true → (x <? z)%float = true.
Proof.
  rewrite !fltb_fcmp, feqb_fcmp.
  destruct (fcmp x y) as [[]|] eqn:Hxy; try done.
  destruct (fcmp y z) as [[]|] eqn:Hyz; try done. intros _ _.
  unfold fcmp in *. by rewrite (SFcompare_trans _ _ _ _ _ Hxy Hyz).
Qed.

Lemma fltb_fleb x y : (x <? y)%float = true → (x <=? y)%float = true.
Proof. rewrite fltb_fcmp, fleb_fcmp. by destruct (fcmp x y) as [[]|]. Qed.

Lemma fltb_not_feqb x y : (x <? y)%float = true → (x =? y)%float = false.
Proof. rewrite fltb_fcmp, feqb_fcmp. by destruct (fcmp x y) as [[]|]. Qed.

Lemma fleb_total x y :
  is_nan x = false → is_nan y = false →
  (x <=? y)%float = false → (y <? x)%float = true.
Proof.
  intros Hx Hy. rewrite fleb_fcmp, fltb_fcmp, (fcmp_antisym x y).
  destruct (fcmp_total x y Hx Hy) as [c ->]. by destruct c.
Qed.

Lemma fleb_not_nan x y :
  (x <=? y)%float = true → is_nan x = false ∧ is_nan y = false.
Proof.
  rewrite fleb_fcmp. destruct (fcmp x y) as [c|] eqn:Hxy; [|done].
  intros _. by apply (fcmp_Some_not_nan x y c).
Qed.

Lemma feqb_not_nan x y :
  (x =? y)%float = true → is_nan x = false ∧ is_nan y = false.
Proof.
  rewrite feqb_fcmp. destruct (fcmp x y) as [c|] eqn:Hxy; [|done].
  intros _. by apply (fcmp_Some_not_nan x y c).
Qed.

Lemma feqb_refl x : is_nan x = false → (x =? x)%float = true.
Proof. unfold is_nan. by destruct (x =? x)%float. Qed.

Lemma fleb_refl x : is_nan x = false → (x <=? x)%float = true.
Proof.
  rewrite is_nan_fcmp, fleb_fcmp. unfold fcmp.
  by destruct (SFcompare_refl (Prim2SF x)) as [-> | ->].
Qed.

(** ** The policy *)

Lemma sort_insert_elem x l y : y ∈ Np.sort_insert x l ↔ y = x ∨ y ∈ l.
Proof.
  induction l as [|z l IH]; simpl.
  - rewrite list_elem_of_singleton. split; [by left|]. intros [?|H]; [done|].
    by apply not_elem_of_nil in H.
  - destruct (Np.sort_lt x z).
    + by rewrite elem_of_cons.
    + rewrite !elem_of_cons, IH. tauto.
Qed.

Lemma sort_elem l y : y ∈ Np.sort l ↔ y ∈ l.
Proof.
  induction l as [|x l IH]; simpl; [done|].
  rewrite sort_insert_elem, elem_of_cons, IH. done.
Qed.

Lemma drop_repeats_elem p l y : y ∈ Np.drop_repeats p l → y ∈ l.
Proof.
  revert p. induction l as [|x l IH]; intros p; simpl; [done|].
  destruct (negb (x =? p)%float).
  - rewrite !elem_of_cons. intros [->|H]; [by left|]. right. by apply (IH x).
  - intros H. right. by apply (IH x).
Qed.

(** What [drop_repeats] removes equals what it keeps. *)
Lemma drop_repeats_all q p l :
  (p =? q)%float = true →
  (∀ y, y ∈ Np.drop_repeats p l → (y =? q)%float = true) →
  ∀ y, y ∈ l → (y =? q)%float = true.
Proof.
  revert p. induction l as [|x l IH]; intros p Hp Hkept y; simpl in *.
  - intros H. by apply not_elem_of_nil in H.
  - assert (Hx : (x =? q)%float = true).
    { destruct (x =? p)%float eqn:Hxp; simpl in Hkept.
      - by apply (feqb_trans x p q).
      - apply Hkept. left. }
    intros [->|Hy]%elem_of_cons; [done|].
    apply (IH x Hx); [|done]. intros z Hz. apply Hkept.
    destruct (negb (x =? p)%float); [by right|done].
Qed.

Lemma unique_all q row :
  forallb (λ u, (u =? q)%float) (Np.unique row) = true ↔
  ∀ y, y ∈ row → (y =? q)%float = true.
Proof.
  rewrite forallb_forall. unfold Np.unique. split.
  - intros Hall y Hy. apply sort_elem in Hy.
    destruct (Np.sort row) as [|x l]; [by apply not_elem_of_nil in Hy|].
    assert (Hx : (x =? q)%float = true) by (apply Hall; by left).
    apply elem_of_cons in Hy as [->|Hy]; [done|].
    apply (drop_repeats_all q x l Hx); [|done].
    intros z Hz. apply Hall. right. by apply list_elem_of_In.
  - intros Hall y Hy. apply Hall, sort_elem.
    destruct (Np.sort row) as [|x l]; [done|].
    apply list_elem_of_In, elem_of_cons in Hy as [->|Hy]; [by left|].
    right. by apply (drop_repeats_elem x).
Qed.

(** The test of [_policy] holds exactly when the row is constant. *)
Lemma policy_test_all_equal row q0 :
  row !! 0 = Some q0 →
  forallb (λ u, (u =? q0)%float) (Np.unique row) = true ↔ all_equal row.
Proof.
  intros Hq0. rewrite unique_all. split.
  - intros Hall x y Hx Hy. apply (feqb_trans x q0 y); [by apply Hall|].
    rewrite feqb_sym. by apply Hall.
  - intros Hall y Hy. apply Hall; [done|]. by apply list_elem_of_lookup_2 in Hq0.
Qed.

Lemma maximum_nan a b : is_nan a = true → Np.maximum a b = a.
Proof. unfold Np.maximum. intros ->. by rewrite orb_true_r. Qed.

Lemma fold_maximum_nan l a :
  is_nan a = true → fold_left Np.maximum l a = a.
Proof.
  induction l as [|x l IH]; simpl; [done|]. intros Ha.
  rewrite maximum_nan by done. by apply IH.
Qed.

Lemma same_value_nan x : is_nan x = true → same_value x x = true.
Proof. unfold same_value. intros ->. by rewrite orb_true_r. Qed.

Lemma same_value_lt y m :
  (y <? m)%float = true → same_value y m = false.
Proof.
  intros Hlt. unfold same_value. rewrite (fltb_not_feqb _ _ Hlt).
  apply fltb_fleb, fleb_not_nan in Hlt as [-> _]. done.
Qed.

(** The scan of [argmax] and the fold of [max], side by side: [pre] is the
    part of the row already read, [mp] its maximum, first met at [ind]. *)
Lemma argmax_from_first_max l : ∀ pre mp ind acc,
  is_nan mp = false →
  pre !! ind = Some mp →
  (mp =? acc)%float = true →
  (∀ j y, j < ind → pre !! j = Some y → (y <? mp)%float = true) →
  (∀ j y, pre !! j = Some y → (y <=? mp)%float = true) →
  ∃ v, (pre ++ l) !! Np.argmax_from mp ind (length pre) l = Some v ∧
       same_value v (fold_left Np.maximum l acc) = true ∧
       ∀ j y, j < Np.argmax_from mp ind (length pre) l →
              (pre ++ l) !! j = Some y →
              same_value y (fold_left Np.maximum l acc) = false.
Proof.
  induction l as [|x l IH]; intros pre mp ind acc Hmp Hind Hacc Hlt Hle; simpl.
  - exists mp. rewrite app_nil_r. split_and!; [done|..].
    + unfold same_value. by rewrite Hacc.
    + intros j y Hj Hy. apply same_value_lt.
      apply (fltb_feqb_trans y mp acc); [by apply (Hlt j)|done].
  - pose proof (feqb_not_nan _ _ Hacc) as [_ Hnacc].
    destruct (x <=? mp)%float eqn:Hx; simpl.
    + assert (Hxacc : (x <=? acc)%float = true)
        by by apply (fleb_feqb_trans x mp acc).
      assert (Hmax : Np.maximum acc x = acc)
        by (unfold Np.maximum; by rewrite Hxacc).
      rewrite Hmax.
      destruct (IH (pre ++ [x]) mp ind acc) as (v & Hv & Hsame & Hfirst);
        try done.
      * rewrite lookup_app_l; [done|]. by apply lookup_lt_Some in Hind.
      * intros j y Hj Hy. apply (Hlt j y Hj).
        rewrite lookup_app_l in Hy; [done|].
        apply lookup_lt_Some in Hind. lia.
      * intros j y Hy. apply lookup_app_Some in Hy as [Hy|[_ Hy]].
        -- by apply (Hle j).
        -- destruct (j - length pre); [|done]. by injection Hy as <-.
      * rewrite length_app, Nat.add_1_r, <- app_assoc in *. simpl in *.
        by exists v.
    + destruct (is_nan x) eqn:Hnx.
      * assert (Hxacc : (x <=? acc)%float = false).
        { destruct (x <=? acc)%float eqn:E; [|done].
          apply fleb_not_nan in E as [E _]. congruence. }
        assert (Hmax : Np.maximum acc x = x)
          by (unfold Np.maximum; by rewrite Hxacc, Hnacc).
        rewrite Hmax, fold_maximum_nan by done.
        exists x. split_and!.
        -- by rewrite list_lookup_middle.
        -- by apply same_value_nan.
        -- intros j y Hj Hy. rewrite lookup_app_l in Hy by lia.
           apply Hle, fleb_not_nan in Hy as [Hy _].
           unfold same_value. rewrite Hy.
           destruct (y =? x)%float eqn:E; [|done].
           apply feqb_not_nan in E as [_ E]. congruence.
      * assert (Hmpx : (mp <? x)%float = true) by by apply fleb_total.
        assert (Hxacc : (x <=? acc)%float = false).
        { destruct (x <=? acc)%float eqn:E; [|done].
          rewrite feqb_sym in Hacc.
          by rewrite (fleb_feqb_trans x acc mp E Hacc) in Hx. }
        assert (Hmax : Np.maximum acc x = x)
          by (unfold Np.maximum; by rewrite Hxacc, Hnacc).
        rewrite Hmax.
        destruct (IH (pre ++ [x]) x (length pre) x) as (v & Hv & Hsame & Hfirst).
        -- done.
        -- by rewrite list_lookup_middle.
        -- by apply feqb_refl.
        -- intros j y Hj Hy. rewrite lookup_app_l in Hy by lia.
           apply (fleb_fltb_trans y mp x); [by apply (Hle j)|done].
        -- intros j y Hy. apply lookup_app_Some in Hy as [Hy|[_ Hy]].
           ++ apply fltb_fleb, (fleb_fltb_trans y mp x); [by apply (Hle j)|done].
           ++ destruct (j - length pre); [|done]. injection Hy as <-.
              by apply fleb_refl.
        -- rewrite length_app, Nat.add_1_r, <- app_assoc in *. simpl in *.
           by exists v.
Qed.

Lemma argmax_first_max row i :
  Np.argmax row = Some i → first_max_index row i.
Proof.
  destruct row as [|x l]; [done|]. simpl. intros [= <-].
  unfold first_max_index. simpl.
  destruct (is_nan x) eqn:Hnx.
  - exists x, x. rewrite fold_maximum_nan by done.
    split_and!; [done|done|by apply same_value_nan|]. intros j y Hj. lia.
  - destruct (argmax_from_first_max l [x] x 0 x) as (v & Hv & Hsame & Hfirst);
      try done.
    + by apply feqb_refl.
    + intros j y Hj. lia.
    + intros [|j] y Hy; [|done]. injection Hy as <-. by apply fleb_refl.
    + simpl in *. by eexists _, v.
Qed.

(** C5. For the row of action values of a state, the policy draws the
    action from [np.random.choice] over all the actions (the uniform draw)
    when all the values of the row are equal, as they are in the all-zero
    row left by a reset; in every other case it consumes no randomness and
    returns the first index that attains the maximum of the row. *)
Theorem policy_draws_iff_row_constant_else_first_max ag s g row :
  Q ag !! s = Some row → 0 < length row →
  (all_equal row →
   _policy ag s g = Some (random_choice (length row) g)) ∧
  (¬ all_equal row →
   ∃ i, _policy ag s g = Some (i, g) ∧ first_max_index row i) ∧
  ((∀ x, x ∈ row → x = 0%float) → all_equal row).
Proof.
  intros Hrow Hlen. destruct (lookup_lt_is_Some_2 row 0 Hlen) as [q0 Hq0].
  pose proof (policy_test_all_equal row q0 Hq0) as Htest.
  unfold _policy. rewrite Hrow. simpl. rewrite Hq0. simpl.
  split_and!.
  - intros Hall. apply Htest in Hall. by rewrite Hall.
  - intros Hnot.
    destruct (forallb _ (Np.unique row)); [by destruct Hnot; apply Htest|].
    destruct (Np.argmax row) as [i|] eqn:Hi; [|by destruct row].
    simpl. exists i. split; [done|]. by apply argmax_first_max.
  - intros Hzero x y Hx Hy. by rewrite (Hzero x Hx), (Hzero y Hy).
Qed.

(** * Further properties of the agent *)

(** A real step keeps the agent well-formed. *)
Lemma real_step_wf npu st st' :
  wf_env → wf_agent st.1 → real_step_spec npu st st' → wf_agent st'.1.
Proof.
  intros Henv Hwf Hstep. destruct st as [ag g].
  destruct (simulate_step_total npu ag g Henv Hwf) as (st1 & Hst1 & Hwf1).
  apply simulate_step_spec in Hstep. congruence.
Qed.

(** X1. In an environment that meets the contract ([wf_env], rewards that
    can be cast to [int64] included) a run returns a well-formed agent: the
    value table and the recency counter keep their [num_states] rows of
    [num_actions] entries, the experience buffer its
    [num_states * num_actions] rows, each at the position of its pair and
    with a next state that is a state, and the current state is a state; no
    index is ever out of range. *)
Theorem simulate_keeps_the_tables_well_formed
  num_trials reset_agent npu ag g :
  wf_env → start_ok reset_agent ag →
  ∃ st', simulate num_trials reset_agent npu ag g = Some st' ∧
         wf_agent st'.1.
Proof.
  intros Henv Hstart.
  destruct (simulate_total num_trials reset_agent npu ag g Henv Hstart)
    as (ag0 & st' & _ & _ & Hsim & _ & Hwf).
  by exists st'.
Qed.

(** ** The experience model against the history *)

Lemma model_inv_reset ag ag0 : reset ag = Some ag0 → model_inv ag0.
Proof.
  intros Hreset.
  destruct (reset_spec ag) as (ag0' & Hreset' & _ & _ & HH & _ & _ & Hrows).
  assert (ag0' = ag0) as -> by congruence.
  intros s a Hs Ha. split.
  - intros h1 r s1 h2 Hh. rewrite HH in Hh. by destruct h1.
  - intros _. by apply Hrows.
Qed.

Lemma model_inv_step npu st st' :
  wf_agent st.1 → model_inv st.1 → real_step_spec npu st st' →
  model_inv st'.1.
Proof.
  intros Hwf Hinv Hstep.
  destruct (real_step_effect _ _ _ Hstep)
    as (a0 & r0 & s10 & (row & Hrow & Ha0) & _ & _ & Hhist & _ & _
        & (z0 & Hz0 & Hbuf) & Hlt & _).
  assert (Ha0' : a0 < num_actions env).
  { destruct (wf_Q _ Hwf) as [_ HQ].
    by rewrite <- (Forall_lookup_1 _ _ _ _ HQ Hrow). }
  intros s a Hs Ha. rewrite Hbuf, Hhist.
  destruct (decide ((s, a) = (self_s st.1, a0))) as [Heq|Hne].
  - injection Heq as -> ->. split.
    + intros h1 r s1 h2 Hh Hall.
      destruct h2 as [|x h2 _] using rev_ind.
      * apply app_inj_tail in Hh as [_ Hh]. injection Hh as <- <-.
        exists z0. by rewrite list_lookup_insert_eq.
      * rewrite app_comm_cons, app_assoc in Hh.
        apply app_inj_tail in Hh as [_ <-].
        apply Forall_app in Hall as [_ Hall]. inversion Hall as [|? ? Hx _].
        by destruct Hx.
    + intros Hall. apply Forall_app in Hall as [_ Hall].
      inversion Hall as [|? ? Hx _]. by destruct Hx.
  - assert (Hidx : self_s st.1 * num_actions env + a0
                   ≠ s * num_actions env + a).
    { intros Hidx. apply row_index_inj in Hidx as [? ?]; [|done..].
      congruence. }
    rewrite list_lookup_insert_ne by done.
    destruct (Hinv s a Hs Ha) as [Hlast Hnever]. split.
    + intros h1 r s1 h2 Hh Hall.
      destruct h2 as [|x h2 _] using rev_ind.
      * apply app_inj_tail in Hh as [_ Hh]. injection Hh as <- <- _ _.
        by destruct Hne.
      * rewrite app_comm_cons, app_assoc in Hh.
        apply app_inj_tail in Hh as [Hh _].
        apply Forall_app in Hall as [Hall _]. by apply (Hlast h1 r s1 h2).
    + intros Hall. apply Forall_app in Hall as [Hall _]. by apply Hnever.
Qed.

(** X2. Along every run in an environment that meets the contract
    ([wf_env], rewards that can be cast to [int64] included) the experience
    model agrees with the history: the row of a pair is the last transition
    the history logs for the pair, with its reward cast to an integer,
    whatever was logged for it before; the row of a pair the history never
    chose is the self-loop of reward 0 that the reset stored. *)
Theorem experience_buffer_holds_last_logged_transition
  num_trials reset_agent npu ag g :
  wf_env →
  reset_agent = true ∨ (wf_agent ag ∧ model_inv ag) →
  ∃ st', simulate num_trials reset_agent npu ag g = Some st' ∧
    ∀ s a, s < num_states env → a < num_actions env →
      (∀ h1 r s1 h2, history st'.1 = h1 ++ (s, a, r, s1) :: h2 →
         Forall (λ row, ¬ chosen s a row) h2 →
         ∃ z, Np.Z_of_float r = Some z ∧
              experience_buffer st'.1 !! (s * num_actions env + a)
              = Some (s, a, z, s1)) ∧
      (Forall (λ row, ¬ chosen s a row) (history st'.1) →
       experience_buffer st'.1 !! (s * num_actions env + a)
       = Some (s, a, 0%Z, s)).
Proof.
  intros Henv Hstart.
  destruct (simulate_total num_trials reset_agent npu ag g Henv)
    as (ag0 & st' & Hag0 & Hwf0 & Hsim & Hrun & _).
  { destruct Hstart as [?|[? _]]; [by left|by right]. }
  exists st'. split; [done|].
  assert (Hinv0 : model_inv ag0).
  { destruct reset_agent.
    - by apply (model_inv_reset ag).
    - destruct Hstart as [?|[_ Hinv]]; [done|]. by injection Hag0 as <-. }
  apply (real_steps_invariant (λ x, wf_agent x ∧ model_inv x) npu _ _ _
           (λ x x' '(conj Hw Hm) Hs,
              conj (real_step_wf npu x x' Henv Hw Hs)
                   (model_inv_step npu x x' Hw Hm Hs))
           Hrun (conj Hwf0 Hinv0)).
Qed.

(** ** The goal state *)

Lemma off_goal_step npu st st' :
  start_state env ≠ goal_state env →
  off_goal st.1 → real_step_spec npu st st' → off_goal st'.1.
Proof.
  intros Hsg [Hs Hall] Hstep.
  destruct (real_step_effect _ _ _ Hstep)
    as (a & r & s1 & _ & _ & _ & Hhist & Hs' & _).
  split.
  - rewrite Hs'. unfold next_position. by case_decide.
  - rewrite Hhist. apply Forall_app. split; [done|]. by constructor.
Qed.

(** X3. In an environment that meets the contract ([wf_env], rewards that
    can be cast to [int64] included), when the start state is not the goal
    state, a run that resets the agent returns and never takes a real step
    from the goal state: no row of the history starts there, and the run
    does not end there. *)
Theorem simulate_never_acts_in_the_goal_state num_trials npu ag g :
  wf_env → start_state env ≠ goal_state env →
  ∃ st', simulate num_trials true npu ag g = Some st' ∧
    self_s st'.1 ≠ goal_state env ∧
    Forall (λ row : HistoryRow, row.1.1.1 ≠ goal_state env) (history st'.1).
Proof.
  intros Henv Hsg.
  destruct (simulate_total num_trials true npu ag g Henv ltac:(by left))
    as (ag0 & st' & Hag0 & _ & Hsim & Hrun & _).
  exists st'. split; [done|].
  apply (real_steps_invariant off_goal npu _ _ _
           (λ x x', off_goal_step npu x x' Hsg) Hrun).
  destruct (reset_spec ag) as (ag0' & Hreset' & _ & _ & HH & Hs0 & _).
  assert (ag0' = ag0) as -> by congruence.
  split; simpl; [by rewrite Hs0|by rewrite HH].
Qed.

(** ** Values without planning *)

(** Without planning a real step writes the value of the pair it takes, and
    no other. *)
Lemma real_step_Q_frame st st' :
  real_step_spec None st st' →
  ∃ a r s1, history st'.1 = history st.1 ++ [(self_s st.1, a, r, s1)] ∧
    ∀ i j, (i, j) ≠ (self_s st.1, a) →
           Np.get2 (Q st'.1) i j = Np.get2 (Q st.1) i j.
Proof.
  destruct st as [ag g]. unfold real_step_spec. simpl.
  intros (a & g1 & s1 & g2 & r & ag4 & ag5 & ag6 & ag8 & g8 &
          _ & _ & _ & H4 & H5 & H6 & H8 & ->).
  exists a, r, s1. injection H8 as <- <-. simpl.
  apply update_experience_buffer_inv in H5 as (z & _ & _ & ->).
  apply update_action_count_inv in H6 as (c & _ & ->). simpl.
  apply update_qvals_inv in H4 as (qsa & m & q1 & _ & _ & Hq1 & ->). simpl.
  split; [done|]. intros i j Hne.
  apply (get2_set2_ne _ _ _ _ _ i j Hq1). congruence.
Qed.

Lemma unchosen_zero_step st st' :
  unchosen_zero st.1 → real_step_spec None st st' → unchosen_zero st'.1.
Proof.
  intros Hinv Hstep.
  destruct (real_step_Q_frame _ _ Hstep) as (a0 & r & s1 & Hhist & Hframe).
  intros s a Hs Ha Hall. rewrite Hhist in Hall.
  apply Forall_app in Hall as [Hall Hlast].
  inversion Hlast as [|? ? Hx _]. rewrite Hframe.
  - by apply Hinv.
  - intros [= -> ->]. by destruct Hx.
Qed.

(** X4. In a run without planning, in an environment that meets the
    contract ([wf_env], rewards that can be cast to [int64] included), the
    value of a pair is written only when the pair is chosen: after the
    reset and any number of real steps, every pair the history never chose
    still has the value 0.  When the start state is not the goal state this
    holds for every action of the goal state, whose values therefore never
    leave 0. *)
Theorem values_of_unchosen_pairs_stay_zero num_trials ag g :
  wf_env →
  ∃ st', simulate num_trials true None ag g = Some st' ∧
    (∀ s a, s < num_states env → a < num_actions env →
       Forall (λ row, ¬ chosen s a row) (history st'.1) →
       Np.get2 (Q st'.1) s a = Some 0%float) ∧
    (start_state env ≠ goal_state env → goal_state env < num_states env →
     ∀ a, a < num_actions env →
       Np.get2 (Q st'.1) (goal_state env) a = Some 0%float).
Proof.
  intros Henv.
  destruct (simulate_total num_trials true None ag g Henv ltac:(by left))
    as (ag0 & st' & Hag0 & _ & Hsim & Hrun & _).
  exists st'. split; [done|].
  destruct (reset_spec ag) as (ag0' & Hreset' & HQ & _ & HH & Hs0 & _).
  assert (ag0' = ag0) as -> by congruence.
  assert (Hzero : unchosen_zero st'.1).
  { apply (real_steps_invariant unchosen_zero None _ _ _
             unchosen_zero_step Hrun).
    intros s a Hs Ha _. simpl. rewrite HQ. by apply get2_full2. }
  split; [done|]. intros Hsg Hgoal a Ha. apply Hzero; [done..|].
  assert (Hoff : off_goal st'.1).
  { apply (real_steps_invariant off_goal None _ _ _
             (λ x x', off_goal_step None x x' Hsg) Hrun).
    split; simpl; [by rewrite Hs0|by rewrite HH]. }
  destruct Hoff as [_ Hall]. eapply Forall_impl; [exact Hall|].
  intros row Hrow [Hc _]. by destruct Hrow.
Qed.

(** ** Continuing a run *)

(** A loop whose body ignores the index only counts its iterations. *)
Lemma for_each_const {St} (f : St → option St) (l1 l2 : list nat) st :
  length l1 = length l2 →
  for_each l1 (λ _, f) st = for_each l2 (λ _, f) st.
Proof.
  revert l2 st. induction l1 as [|i l1 IH]; intros [|j l2] st Hlen;
    simpl in *; try done.
  destruct (f st) as [st'|]; simpl; [|done]. apply IH. lia.
Qed.

Lemma for_range_add {St} (f : St → option St) (n m : nat) st :
  for_range (n + m) (λ _, f) st
  = for_range n (λ _, f) st ≫= for_range m (λ _, f).
Proof.
  unfold for_range. rewrite seq_app, for_each_app.
  destruct (for_each (seq 0 n) (λ _, f) st) as [st'|]; simpl; [|done].
  apply for_each_const. by rewrite !length_seq.
Qed.

(** X5. Training can be continued: a run of [n + m] trials is a run of [n]
    trials followed by a run of [m] trials that does not reset the agent,
    started from the agent and the state of the random source the first run
    left; if the first run raises, so does the long one. *)
Theorem simulate_continues_without_reset (n m : nat) reset_agent npu ag g :
  simulate (Z.of_nat (n + m)) reset_agent npu ag g
  = simulate (Z.of_nat n) reset_agent npu ag g
    ≫= λ st, simulate (Z.of_nat m) false npu st.1 st.2.
Proof.
  unfold simulate. rewrite !Nat2Z.id.
  destruct (if reset_agent then reset ag else Some ag) as [ag0|]; simpl;
    [|done].
  rewrite for_range_add.
  destruct (for_range n _ (ag0, g)) as [[ag1 g1]|]; done.
Qed.

(** ** The policy and the update on their inputs *)

(** X6. The policy raises exactly when the state has no row in the value
    table or the row has no action; whenever it returns, the action is an
    index of that row. *)
Theorem policy_returns_an_action_of_the_row ag s g :
  (_policy ag s g = None ↔ Q ag !! s = None ∨ Q ag !! s = Some []) ∧
  (∀ a g', _policy ag s g = Some (a, g') →
     ∃ row, Q ag !! s = Some row ∧ a < length row).
Proof.
  split; [|intros a g'; apply policy_lt].
  unfold _policy. destruct (Q ag !! s) as [row|]; simpl; [|by split; auto].
  destruct row as [|q0 row]; simpl; [by split; auto|].
  split; [|by intros [|]].
  destruct (forallb _ _); [done|]. simpl. done.
Qed.

(** With the bonus flag the update returns as soon as its three reads
    do. *)
Lemma update_qvals_bonus_total ag s a r s1 q m c :
  Np.get2 (Q ag) s a = Some q →
  Q ag !! s1 ≫= Np.max = Some m →
  Np.get2 (action_count ag) s a = Some c →
  ∃ ag2, _update_qvals ag s a r s1 true = Some ag2.
Proof.
  intros Hq Hm Hc.
  destruct (set2_of_get2 _ _ _ _ (baseline q r m) Hq) as [q1 Hq1].
  destruct (row_max_after_set2 _ _ _ _ _ _ _ Hq1 Hm) as (m1 & Hm1 & _).
  pose proof (get2_set2_eq _ _ _ _ _ Hq1) as Hq1sa.
  destruct (set2_of_get2 _ _ _ _ (with_bonus (baseline q r m) r m1 c) Hq1sa)
    as [q2 Hq2].
  exists (with_Q ag q2).
  unfold _update_qvals. rewrite Hq. simpl. rewrite Hm. simpl.
  fold (baseline q r m). rewrite Hq1. simpl. rewrite Hq1sa. simpl.
  rewrite Hc. simpl. rewrite Hm1. simpl.
  fold (with_bonus (baseline q r m) r m1 c). by rewrite Hq2.
Qed.

(** X7. The value update returns exactly when [Q[s,a]] exists, the row of
    [s1] exists and is not empty and, under the bonus flag, the counter of
    the pair exists; it then changes nothing but the value table, whose
    shape it keeps. *)
Theorem update_qvals_returns_iff_indices_are_valid ag s a r s1 bonus :
  (is_Some (_update_qvals ag s a r s1 bonus) ↔
   is_Some (Np.get2 (Q ag) s a) ∧
   (∃ row, Q ag !! s1 = Some row ∧ row ≠ []) ∧
   (bonus = true → is_Some (Np.get2 (action_count ag) s a))) ∧
  (∀ ag', _update_qvals ag s a r s1 bonus = Some ag' →
     ag' = with_Q ag (Q ag') ∧
     ∀ n m, shape2 (Q ag) n m → shape2 (Q ag') n m).
Proof.
  split.
  - split.
    + intros [ag' Hupd].
      apply update_qvals_inv in Hupd as (qsa & mx & q1 & Hq & Hm & _ & Hb).
      split_and!; [by eexists| |].
      * destruct (Q ag !! s1) as [row|]; [|done]. exists row. split; [done|].
        by destruct row.
      * intros ->. destruct Hb as (c & _ & _ & Hc & _). by eexists.
    + intros ([q Hq] & (row & Hrow & Hne) & Hc).
      assert (Hm : is_Some (Q ag !! s1 ≫= Np.max)).
      { rewrite Hrow. simpl. by destruct row; [|eexists]. }
      destruct Hm as [mx Hm].
      destruct bonus.
      * destruct (Hc eq_refl) as [c Hc'].
        destruct (update_qvals_bonus_total ag s a r s1 q mx c
                    Hq Hm Hc') as (ag2 & ->). by eexists.
      * unfold _update_qvals. rewrite Hq. simpl. rewrite Hm. simpl.
        destruct (set2_of_get2 _ _ _ _ (q + alpha * (r + gamma * mx - q))%float
                    Hq) as [q1 ->].
        by eexists.
  - intros ag' Hupd. split.
    + by apply update_qvals_Q in Hupd.
    + intros n m. by apply (update_qvals_shape _ _ _ _ _ _ _ _ _ Hupd).
Qed.

(** ** The record and its index *)

(** X8. The record into the experience buffer raises exactly when
    [s * num_actions + a] is not a row of the buffer, when the reward cannot
    be cast to [int64], or when one of the three indices does not fit
    [int64]; that the action is one of the [num_actions] actions is not
    checked.  An action beyond [num_actions] whose index is a row is
    accepted, and overwrites the row of another pair, that of the state
    [s + a / num_actions] and the action [a mod num_actions]. *)
Theorem experience_record_rejects_bad_rows_and_uncastable_values
  ag s a r s1 :
  (_update_experience_buffer ag s a r s1 = None ↔
   length (experience_buffer ag) ≤ s * num_actions env + a ∨
   Np.Z_of_float r = None ∨
   ¬ ((Z.of_nat s < 2 ^ 63)%Z ∧ (Z.of_nat a < 2 ^ 63)%Z ∧
      (Z.of_nat s1 < 2 ^ 63)%Z)) ∧
  (∀ ag', 0 < num_actions env → num_actions env ≤ a →
     _update_experience_buffer ag s a r s1 = Some ag' →
     a mod num_actions env < num_actions env ∧
     (s + a / num_actions env, a mod num_actions env) ≠ (s, a) ∧
     ∃ z, Np.Z_of_float r = Some z ∧
       experience_buffer ag'
         !! ((s + a / num_actions env) * num_actions env
             + a mod num_actions env)
       = Some (s, a, z, s1)).
Proof.
  split.
  - unfold _update_experience_buffer, store, int_row, Np.int64_of_nat.
    destruct (decide (Z.of_nat s < 2 ^ 63)%Z); simpl;
      [|split; [intros _; right; right; tauto|done]].
    destruct (decide (Z.of_nat a < 2 ^ 63)%Z); simpl;
      [|split; [intros _; right; right; tauto|done]].
    destruct (Np.Z_of_float r) as [z|]; simpl;
      [|split; [intros _; by right; left|done]].
    destruct (decide (Z.of_nat s1 < 2 ^ 63)%Z); simpl;
      [|split; [intros _; right; right; tauto|done]].
    case_decide; simpl.
    + split; [done|]. intros [?|[?|Hn]]; [lia|done|]. by destruct Hn.
    + split; [intros _; left; lia|done].
  - intros ag' HA Ha Hrec.
    apply update_experience_buffer_inv in Hrec as (z & Hz & Hlt & ->). simpl.
    set (m := num_actions env) in *.
    assert (Hmod : a mod m < m) by (apply Nat.mod_upper_bound; lia).
    assert (Hdiv : a = m * (a / m) + a mod m) by (apply Nat.div_mod; lia).
    split_and!; [done| |].
    + intros [= _ Heq]. lia.
    + exists z. split; [done|].
      replace ((s + a / m) * m + a mod m) with (s * m + a) by lia.
      by apply list_lookup_insert_eq.
Qed.

(** ** Performance along a run *)

Lemma last_cons_default {A} (d a : A) (c : list A) :
  default d (last (a :: c)) = default a (last c).
Proof.
  destruct c as [|z t]; [done|].
  change (last (a :: z :: t)) with (last (z :: t)).
  destruct (last (z :: t)) eqn:E; [done|]. by apply last_None in E.
Qed.

Lemma cumsum_from_snoc acc l x :
  Np.cumsum_from acc (l ++ [x])
  = Np.cumsum_from acc l
    ++ [(default acc (last (Np.cumsum_from acc l)) + x)%float].
Proof.
  revert acc. induction l as [|y l IH]; intros acc; [done|].
  cbn [app Np.cumsum_from]. rewrite IH. cbn [app].
  by rewrite last_cons_default.
Qed.

(** X9. A real step extends the performance report and rewrites none of
    its values: after the append of a transition of reward [r] to the
    history, the report is the report of before followed by one value, its
    last value plus [r], or [r] itself when the history was empty. *)
Theorem get_performace_grows_by_the_last_total ag s a r s1 :
  get_performace (_update_history ag s a r s1)
  = get_performace ag
    ++ [from_option (λ total, (total + r)%float) r (last (get_performace ag))].
Proof.
  unfold get_performace, _update_history. simpl.
  change (map (λ row : HistoryRow, row.1.2) (history ag ++ [(s, a, r, s1)]))
    with (fmap (M := list) (λ row : HistoryRow, row.1.2)
            (history ag ++ [(s, a, r, s1)])).
  rewrite fmap_app. simpl.
  change (fmap (M := list) (λ row : HistoryRow, row.1.2) (history ag))
    with (map (λ row : HistoryRow, row.1.2) (history ag)).
  destruct (map _ (history ag)) as [|x l]; [done|].
  cbn [app Np.cumsum]. rewrite cumsum_from_snoc. cbn [app]. do 2 f_equal.
  destruct (last (x :: Np.cumsum_from x l)) as [total|] eqn:E;
    [|by apply last_None in E].
  pose proof (last_cons_default x x (Np.cumsum_from x l)) as Hd.
  rewrite E in Hd. simpl in Hd. by rewrite <- Hd.
Qed.

(** ** The range of the recency counter *)

(** X10. In a run of fewer than [2^63] trials that resets the agent, in an
    environment that meets the contract ([wf_env], rewards that can be cast
    to [int64] included), the history holds one row per trial and every
    recency counter lies between 0 and the number of trials: the square root
    of the planning bonus is never taken of a negative number. *)
Theorem recency_counters_stay_within_the_step_count num_trials npu ag g :
  wf_env → (num_trials < 2 ^ 63)%Z →
  ∃ st', simulate num_trials true npu ag g = Some st' ∧
    length (history st'.1) = Z.to_nat num_trials ∧
    ∀ s a, s < num_states env → a < num_actions env →
      ∃ c, Np.get2 (action_count st'.1) s a = Some c ∧
           (0 ≤ c ≤ Z.of_nat (length (history st'.1)))%Z.
Proof.
  intros Henv Hn.
  destruct (simulate_total num_trials true npu ag g Henv ltac:(by left))
    as (ag0 & st' & Hag0 & _ & Hsim & Hrun & _).
  exists st'. split; [done|].
  destruct (reset_spec ag) as (ag0' & Hreset' & _ & _ & HH & _).
  assert (ag0' = ag0) as -> by congruence.
  destruct (real_steps_walk _ _ _ _ Hrun) as (log & Hlen & Hhist & _).
  simpl in Hhist. rewrite HH in Hhist. simpl in Hhist.
  assert (Hlength : length (history st'.1) = Z.to_nat num_trials)
    by by rewrite Hhist.
  split; [done|].
  assert (Hinv : counter_inv st'.1).
  { apply (real_steps_invariant counter_inv _ _ _ _
             (counter_inv_step npu) Hrun).
    by apply (counter_inv_reset ag). }
  intros s a Hs Ha.
  pose proof (proj2 (elapsed_since_last s a (history st'.1) _) eq_refl) as Hel.
  pose proof (elapsed_le_length _ _ _ _ Hel) as Hle.
  rewrite (Hinv s a _ Hs Ha Hel).
  rewrite int64_wrap_small by lia.
  eexists. split; [done|]. lia.
Qed.

(** ** The policy after a reset *)

(** X14. Right after a reset the values are all 0, so in every state the
    policy draws its action from [np.random.choice] over the [num_actions]
    actions, and the action drawn is a valid one. *)
Theorem policy_draws_in_every_state_after_reset ag ag0 s g :
  reset ag = Some ag0 → s < num_states env → 0 < num_actions env →
  _policy ag0 s g = Some (random_choice (num_actions env) g) ∧
  (random_choice (num_actions env) g).1 < num_actions env.
Proof.
  intros Hreset Hs HA.
  destruct (reset_spec ag) as (ag0' & Hreset' & HQ & _).
  assert (ag0' = ag0) as -> by congruence.
  split; [|by apply random_choice_lt].
  unfold _policy. rewrite HQ. unfold Np.full2.
  rewrite lookup_replicate_2 by done. simpl.
  rewrite lookup_replicate_2 by done. simpl.
  assert (Hq0 : replicate (num_actions env) 0%float !! 0 = Some 0%float)
    by by apply lookup_replicate_2.
  assert (Htest : forallb (λ u, (u =? 0)%float)
                    (Np.unique (replicate (num_actions env) 0%float)) = true).
  { apply (policy_test_all_equal _ _ Hq0).
    intros x y Hx Hy. apply elem_of_replicate in Hx as [-> _].
    by apply elem_of_replicate in Hy as [-> _]. }
  rewrite Htest. by rewrite length_replicate.
Qed.
End Dyna.

(** * [TwoStepAgent]: the stay probabilities *)

Lemma for_each_ext {St} (l : list nat) (f g : nat → St → option St) st :
  (∀ i x, i ∈ l → f i x = g i x) → for_each l f st = for_each l g st.
Proof.
  revert st. induction l as [|i l IH]; intros st Hfg; simpl; [done|].
  rewrite (Hfg i st) by left.
  destruct (g i st) as [st'|]; simpl; [|done].
  apply IH. intros j x Hj. apply Hfg. by right.
Qed.

(** One more trial is counted in exactly one of the four kinds, and a stay
    only where the trial is counted. *)
Lemma count_trial_totals a s1 r1 a_next c :
  let c' := TwoStep.count_trial a s1 r1 a_next c in
  TwoStep.num_common_r c' + TwoStep.num_rare_r c'
  + TwoStep.num_common_nr c' + TwoStep.num_rare_nr c'
  = S (TwoStep.num_common_r c + TwoStep.num_rare_r c
       + TwoStep.num_common_nr c + TwoStep.num_rare_nr c) ∧
  (TwoStep.common_r c ≤ TwoStep.num_common_r c →
   TwoStep.common_r c' ≤ TwoStep.num_common_r c') ∧
  (TwoStep.rare_r c ≤ TwoStep.num_rare_r c →
   TwoStep.rare_r c' ≤ TwoStep.num_rare_r c') ∧
  (TwoStep.common_nr c ≤ TwoStep.num_common_nr c →
   TwoStep.common_nr c' ≤ TwoStep.num_common_nr c') ∧
  (TwoStep.rare_nr c ≤ TwoStep.num_rare_nr c →
   TwoStep.rare_nr c' ≤ TwoStep.num_rare_nr c').
Proof.
  unfold TwoStep.count_trial.
  destruct (((a =? 0)%Z && (s1 =? 1)%Z) || ((a =? 1)%Z && (s1 =? 2)%Z)),
           (r1 =? 1)%Z, (a =? a_next)%Z; simpl; lia.
Qed.

(** The counting loop, with the invariant of its counters. *)
Lemma count_stays_totals history :
  ∃ c, TwoStep.count_stays history = Some c ∧
    TwoStep.num_common_r c + TwoStep.num_rare_r c
    + TwoStep.num_common_nr c + TwoStep.num_rare_nr c
    = length history - 1 ∧
    TwoStep.common_r c ≤ TwoStep.num_common_r c ∧
    TwoStep.rare_r c ≤ TwoStep.num_rare_r c ∧
    TwoStep.common_nr c ≤ TwoStep.num_common_nr c ∧
    TwoStep.rare_nr c ≤ TwoStep.num_rare_nr c.
Proof.
  unfold TwoStep.count_stays.
  set (P := λ (i : nat) (c : TwoStep.Counts),
         TwoStep.num_common_r c + TwoStep.num_rare_r c
         + TwoStep.num_common_nr c + TwoStep.num_rare_nr c = i ∧
         TwoStep.common_r c ≤ TwoStep.num_common_r c ∧
         TwoStep.rare_r c ≤ TwoStep.num_rare_r c ∧
         TwoStep.common_nr c ≤ TwoStep.num_common_nr c ∧
         TwoStep.rare_nr c ≤ TwoStep.num_rare_nr c).
  apply (for_range_total P).
  - intros i c Hi (Htot & H1 & H2 & H3 & H4).
    destruct (lookup_lt_is_Some_2 history i) as [[[a s1] r1] ->]; [lia|].
    destruct (lookup_lt_is_Some_2 history (i + 1)) as [[[a_next ?] ?] ->];
      [lia|].
    simpl. eexists. split; [done|].
    pose proof (count_trial_totals a s1 r1 a_next c) as Hstep.
    cbv zeta in Hstep. destruct Hstep as (Ht & ? & ? & ? & ?).
    unfold P. split_and!; [lia|auto..].
  - unfold P. simpl. lia.
Qed.

(** X11. The count of the stays never fails on an index: it classifies
    every trial but the last one in exactly one of the four kinds (common or
    rare transition, rewarded or not), so that the four totals add up to the
    number of trials minus one (to 0 on an empty history), and no stay count
    exceeds the total of its kind. *)
Theorem count_stays_classifies_all_trials_but_the_last history :
  ∃ c, TwoStep.count_stays history = Some c ∧
    TwoStep.num_common_r c + TwoStep.num_rare_r c
    + TwoStep.num_common_nr c + TwoStep.num_rare_nr c
    = length history - 1 ∧
    TwoStep.common_r c ≤ TwoStep.num_common_r c ∧
    TwoStep.rare_r c ≤ TwoStep.num_rare_r c ∧
    TwoStep.common_nr c ≤ TwoStep.num_common_nr c ∧
    TwoStep.rare_nr c ≤ TwoStep.num_rare_nr c.
Proof. apply count_stays_totals. Qed.

(** X12. The stay probabilities are returned exactly when each of the four
    kinds of trial occurs among the trials before the last; otherwise a
    division by zero is raised.  In particular a history of fewer than five
    trials always raises. *)
Theorem get_stay_probabilities_needs_every_kind history :
  ∃ c, TwoStep.count_stays history = Some c ∧
    (is_Some (TwoStep.get_stay_probabilities history) ↔
     0 < TwoStep.num_common_r c ∧ 0 < TwoStep.num_rare_r c ∧
     0 < TwoStep.num_common_nr c ∧ 0 < TwoStep.num_rare_nr c) ∧
    (length history < 5 → TwoStep.get_stay_probabilities history = None).
Proof.
  destruct (count_stays_totals history) as (c & Hc & Htot & _).
  exists c. split; [done|].
  assert (Hiff : is_Some (TwoStep.get_stay_probabilities history) ↔
     0 < TwoStep.num_common_r c ∧ 0 < TwoStep.num_rare_r c ∧
     0 < TwoStep.num_common_nr c ∧ 0 < TwoStep.num_rare_nr c).
  { unfold TwoStep.get_stay_probabilities, TwoStep.true_divide.
    rewrite Hc. simpl.
    repeat (case_decide; simpl);
      (split; [intros [? ?]; (discriminate || (split_and!; lia))
              |intros (? & ? & ? & ?); (lia || by eexists)]). }
  split; [done|]. intros Hlen.
  destruct (TwoStep.get_stay_probabilities history) eqn:Hp; [|done].
  destruct (proj1 Hiff) as (? & ? & ? & ?); [by eexists|]. lia.
Qed.

(** X13. Of the last trial only the action counts: its second-stage state
    and its reward never enter the stay probabilities. *)
Theorem get_stay_probabilities_ignores_last_outcome history a s1 r1 s1' r1' :
  TwoStep.get_stay_probabilities
    (TwoStep._update_history history a s1 r1)
  = TwoStep.get_stay_probabilities
      (TwoStep._update_history history a s1' r1').
Proof.
  unfold TwoStep.get_stay_probabilities, TwoStep._update_history.
  assert (Hcount : TwoStep.count_stays (history ++ [(a, s1, r1)])
                   = TwoStep.count_stays (history ++ [(a, s1', r1')])).
  { unfold TwoStep.count_stays, for_range. rewrite !length_app. simpl.
    apply for_each_ext. intros i c Hi.
    apply list_elem_of_In, in_seq in Hi.
    rewrite !(lookup_app_l history _ i) by lia.
    destruct (history !! i) as [[[b t1] q1]|]; simpl; [|done].
    destruct (decide (i + 1 < length history)) as [Hlt|Hge].
    - by rewrite !(lookup_app_l history _ (i + 1)) by lia.
    - rewrite !(lookup_app_r history _ (i + 1)) by lia.
      by replace (i + 1 - length history) with 0 by lia. }
  by rewrite Hcount.
Qed.
(** * Examples

    The tape is a random source. *)

Lemma tape_draw_lt n g : 0 < n → (Tape.draw n g).1 < n.
Proof.
  intros Hn. destruct g as [|x g]; simpl; [done|].
  apply Nat.mod_upper_bound. lia.
Qed.

Lemma tape_support_from_lt p :
  ∀ i j, j ∈ Tape.support_from i p → j < i + length p.
Proof.
  induction p as [|x p IH]; intros i j; simpl.
  - intros Hj. by apply not_elem_of_nil in Hj.
  - destruct (0 <? x)%float.
    + intros [->|Hj]%elem_of_cons; [lia|]. apply IH in Hj. lia.
    + intros Hj. apply IH in Hj. lia.
Qed.

Lemma tape_draw_p_lt p g i g' : Tape.draw_p p g = Some (i, g') → i < length p.
Proof.
  unfold Tape.draw_p.
  destruct (Tape.support_from 0 p) as [|i0 sup] eqn:Hs; [done|].
  assert (Hin : ∀ j, j ∈ i0 :: sup → j < length p).
  { intros j Hj. rewrite <- Hs in Hj. by apply tape_support_from_lt in Hj. }
  destruct g as [|x g].
  - intros [= <- <-]. apply Hin. left.
  - assert (Hk : x mod S (length sup) < length (i0 :: sup))
      by (apply Nat.mod_upper_bound; discriminate).
    revert Hk. generalize (x mod S (length sup)). intros k Hk [= <- <-].
    apply Hin, list_elem_of_In. by apply (nth_In (i0 :: sup) i0).
Qed.

#[global] Instance tape_random_state : RandomState (list nat) := {|
  random_choice := Tape.draw;
  random_choice_p := Tape.draw_p;
  random_randint := Tape.draw;
  random_choice_lt := tape_draw_lt;
  random_choice_p_lt := tape_draw_p_lt;
  random_randint_lt := tape_draw_lt
|}.

Lemma reset_two_state : reset two_state blank = Some two_state_fresh.
Proof. reflexivity. Qed.

Lemma reset_corridor : reset corridor blank = Some corridor_fresh.
Proof. reflexivity. Qed.

Lemma draw_p_is_Some p g :
  Tape.support_from 0 p ≠ [] → is_Some (Tape.draw_p p g).
Proof.
  unfold Tape.draw_p. destruct (Tape.support_from 0 p); [done|]. by eexists.
Qed.

Lemma two_state_wf : wf_env (RS := tape_random_state) two_state.
Proof.
  split.
  - simpl. lia.
  - simpl. lia.
  - split; [done|]. by repeat constructor.
  - intros s a Hs Ha. simpl in Hs, Ha.
    assert (a = 0) as -> by lia.
    destruct s as [|[|s]]; [| |lia]; eexists; (split; [reflexivity|]);
      (split; [reflexivity|]); intros g; by apply draw_p_is_Some.
  - intros s a r Hr. unfold Np.get2 in Hr.
    destruct s as [|[|s]]; simpl in Hr; [| |done];
      (destruct a as [|a]; simpl in Hr; [|done]); injection Hr as <-;
      eexists; vm_compute; reflexivity.
  - simpl. lia.
Qed.

Lemma corridor_wf : wf_env (RS := tape_random_state) corridor.
Proof.
  split.
  - simpl. lia.
  - simpl. lia.
  - split; [done|]. by repeat constructor.
  - intros s a Hs Ha. simpl in Hs, Ha.
    destruct s as [|[|[|s]]]; [| | |lia];
      (destruct a as [|[|a]]; [| |lia]); eexists; (split; [reflexivity|]);
      (split; [reflexivity|]); intros g; by apply draw_p_is_Some.
  - intros s a r Hr. unfold Np.get2 in Hr.
    destruct s as [|[|[|s]]]; simpl in Hr; [| | |done];
      (destruct a as [|[|a]]; simpl in Hr; [| |done]); injection Hr as <-;
      eexists; vm_compute; reflexivity.
  - simpl. lia.
Qed.

Lemma two_state_fresh_wf : wf_agent two_state two_state_fresh.
Proof. apply (reset_wf two_state blank); [simpl; lia|reflexivity]. Qed.

(** C1: the trained agent of [two_state] replays the self-loop of the pair
    (1, 0), whose value is 0.25 and whose counter is 4, with reward 0, under
    [alpha = gamma = 0.5] and [epsilon = 0.25].  The baseline update leaves
    0.1875, which is then the maximum of the row of the next state, and the
    bonus update on top of it leaves 0.390625. *)
Lemma update_qvals_bonus_witness :
  Np.get2 (Q two_state_trained) 1 0 = Some 0.25%float ∧
  Q two_state_trained !! 1 ≫= Np.max = Some 0.25%float ∧
  Np.get2 (action_count two_state_trained) 1 0 = Some 4%Z ∧
  ∃ ag1 ag2,
    _update_qvals 0.5 0.5 0.25 two_state_trained 1 0 0 1 false = Some ag1 ∧
    _update_qvals 0.5 0.5 0.25 two_state_trained 1 0 0 1 true = Some ag2 ∧
    Np.get2 (Q ag1) 1 0 = Some 0.1875%float ∧
    Np.get2 (Q ag2) 1 0 = Some 0.390625%float.
Proof.
  split_and!; [reflexivity..|].
  destruct (update_qvals_bonus_applies_both_updates 0.5 0.5 0.25
              two_state_trained 1 0 0 1 0.25 0.25 4 eq_refl eq_refl eq_refl)
    as (ag1 & ag2 & m1 & H1 & H2 & Hq1 & Hm1 & _ & Hq2 & _).
  exists ag1, ag2. split_and!; [done|done|exact Hq1|].
  rewrite Hq2. vm_compute in H1. injection H1 as <-.
  vm_compute in Hm1. injection Hm1 as <-. reflexivity.
Defined.

(** C2: three trials in [two_state], from a reset, with two planning updates
    a step: the run returns and the history holds three rows. *)
Lemma simulate_three_steps_witness :
  wf_env (RS := tape_random_state) two_state ∧
  start_ok two_state true blank ∧
  ∃ st', simulate (RS := tape_random_state) two_state 0.5 0.5 0.25
           3 true (Some 2%Z) blank [0; 1; 0; 1; 0; 0; 0; 0] = Some st' ∧
         history st'.1
         = [ (0, 0, 1%float, 1); (0, 0, 1%float, 1); (0, 0, 1%float, 1) ] ∧
         self_s st'.1 = 0.
Proof.
  split; [exact two_state_wf|]. split; [by left|].
  destruct (simulate_performs_exactly_n_real_steps (RS := tape_random_state)
              two_state 0.5 0.5 0.25 3 true (Some 2%Z) blank
              [0; 1; 0; 1; 0; 0; 0; 0] two_state_wf (or_introl eq_refl))
    as (ag0 & st' & log & _ & Hsim & _).
  exists st'. split; [exact Hsim|].
  vm_compute in Hsim. injection Hsim as <-. split; reflexivity.
Defined.

(** C3: after three trials in [two_state], the pair (1, 0), never chosen,
    has the counter 3, and the pair (0, 0), chosen last, the counter 0. *)
Lemma recency_counter_witness :
  wf_env (RS := tape_random_state) two_state ∧
  ∃ st', simulate (RS := tape_random_state) two_state 0.5 0.5 0.25
           3 true None blank [0; 0; 0] = Some st' ∧
         Np.get2 (action_count st'.1) 1 0 = Some 3%Z ∧
         Np.get2 (action_count st'.1) 0 0 = Some 0%Z.
Proof.
  split; [exact two_state_wf|].
  destruct (recency_counter_counts_steps_since_last_choice
              (RS := tape_random_state) two_state 0.5 0.5 0.25 3 true None
              blank [0; 0; 0] two_state_wf (or_introl eq_refl))
    as [(st' & Hsim & Hcount) _].
  exists st'. split; [exact Hsim|].
  assert (Hh : history st'.1
          = [ (0, 0, 1%float, 1); (0, 0, 1%float, 1); (0, 0, 1%float, 1) ]).
  { vm_compute in Hsim. by injection Hsim as <-. }
  split.
  - apply (Hcount 1 0 3); [simpl; lia..| |simpl; lia].
    apply elapsed_since_last. by rewrite Hh.
  - apply (Hcount 0 0 0); [simpl; lia..| |simpl; lia].
    apply elapsed_since_last. by rewrite Hh.
Defined.

(** C4: in [corridor] the record of the transition [(0, 0, 1, 0)], whose
    reward is an integer, is returned as it was recorded. *)
Lemma record_then_sample_witness :
  length (experience_buffer corridor_fresh)
  = num_states corridor * num_actions corridor ∧
  0 < num_states corridor ∧ 0 < num_actions corridor ∧
  (Z.of_nat 0 < 2 ^ 63)%Z ∧ Np.Z_of_float 1 = Some 1%Z ∧
  ∃ ag', _update_experience_buffer corridor corridor_fresh 0 0 1 0 = Some ag' ∧
         sample (RS := tape_random_state) ag' [0] = Some ((0, 0, 1%Z, 0), []).
Proof.
  split; [reflexivity|]. split; [simpl; lia|]. split; [simpl; lia|].
  split; [lia|]. split; [reflexivity|].
  destruct (record_then_sample_returns_the_cast_reward
              (RS := tape_random_state) corridor corridor_fresh 0 0 1 0
              eq_refl ltac:(simpl; lia) ltac:(simpl; lia)
              ltac:(lia) ltac:(lia) ltac:(lia))
    as (_ & Hsome & _).
  destruct (Hsome 1%Z eq_refl) as (ag' & Hrec & _ & _ & Hsample).
  exists ag'. split; [exact Hrec|].
  vm_compute in Hrec. injection Hrec as <-.
  exact (Hsample [0] eq_refl).
Defined.

(** C4, as the claim states it, fails: the reward one half of the pair
    (0, 0) of [corridor] is recorded as 0, and that is what the sample that
    draws the pair returns. *)
Lemma record_then_sample_alters_fractional_reward :
  ∃ ag', _update_experience_buffer corridor corridor_fresh 0 0 0.5 0
         = Some ag' ∧
         sample (RS := tape_random_state) ag' [0] = Some ((0, 0, 0%Z, 0), []) ∧
         Np.float_of_Z 0 ≠ 0.5%float.
Proof.
  eexists. split; [reflexivity|]. split; [reflexivity|].
  intros Heq. apply (f_equal Prim2SF) in Heq. vm_compute in Heq. discriminate.
Qed.

(** The record raises on a reward that is not a number and on one beyond
    the range of [int64]; the buffer is then as it was. *)
Example record_raises_on_nan :
  _update_experience_buffer corridor corridor_fresh 0 0 nan 0 = None.
Proof. reflexivity. Qed.

Example record_raises_beyond_int64 :
  _update_experience_buffer corridor corridor_fresh 0 0 1e19 0 = None.
Proof. reflexivity. Qed.

(** C5: in state 0 of the trained agent of [corridor] the values 0.25 and
    0.75 differ, and the policy returns action 1 without drawing. *)
Lemma policy_first_max_witness :
  Q corridor_trained !! 0 = Some [0.25; 0.75]%float ∧
  0 < length [0.25; 0.75]%float ∧
  ∃ i, _policy (RS := tape_random_state) corridor_trained 0 [7] = Some (i, [7]) ∧
       first_max_index [0.25; 0.75]%float i ∧ i = 1.
Proof.
  split; [reflexivity|]. split; [simpl; lia|].
  destruct (policy_draws_iff_row_constant_else_first_max
              (RS := tape_random_state) corridor_trained 0 [7]
              [0.25; 0.75]%float eq_refl ltac:(simpl; lia))
    as (_ & Hmax & _).
  destruct Hmax as (i & Hpol & Hfirst).
  { intros Hall.
    specialize (Hall 0.25%float 0.75%float ltac:(left)
                  ltac:(right; left)).
    vm_compute in Hall. discriminate. }
  exists i. split; [exact Hpol|]. split; [exact Hfirst|].
  vm_compute in Hpol. by injection Hpol as <-.
Defined.

(** C8: two planning updates on the agent a reset leaves in [two_state]. *)
Lemma planning_frame_witness :
  wf_agent two_state two_state_fresh ∧ 0 < num_actions two_state ∧
  ∃ st', _plan (RS := tape_random_state) 0.5 0.5 0.25 2
           (two_state_fresh, [1; 0]) = Some st' ∧
         experience_buffer st'.1 = experience_buffer two_state_fresh ∧
         action_count st'.1 = action_count two_state_fresh ∧
         history st'.1 = history two_state_fresh ∧
         self_s st'.1 = self_s two_state_fresh.
Proof.
  split; [exact two_state_fresh_wf|]. split; [simpl; lia|].
  exact (planning_writes_only_the_value_table (RS := tape_random_state)
           two_state 0.5 0.5 0.25 2 two_state_fresh [1; 0]
           two_state_fresh_wf ltac:(simpl; lia)).
Defined.

(** C10: the agent of [corridor] after a reset and the record of a move
    from state 1 to state 2. *)
Lemma buffer_keys_witness :
  ∃ ag, reachable (RS := tape_random_state) corridor 0.5 0.5 0.25 ag ∧
        experience_buffer ag !! (1 * num_actions corridor + 1)
        = Some (1, 1, 1%Z, 2) ∧
        ∀ s a, s < num_states corridor → a < num_actions corridor →
          ∃ r s1, experience_buffer ag !! (s * num_actions corridor + a)
                  = Some (s, a, r, s1).
Proof.
  assert (Hreach : reachable (RS := tape_random_state) corridor 0.5 0.5 0.25
            (with_experience_buffer corridor_fresh
               (<[3 := (1, 1, 1%Z, 2)]> (experience_buffer corridor_fresh)))).
  { apply (reachable_record corridor 0.5 0.5 0.25 corridor_fresh 1 1 1 2).
    - apply (reachable_reset corridor 0.5 0.5 0.25 blank). reflexivity.
    - simpl; lia.
    - simpl; lia.
    - reflexivity. }
  eexists. split; [exact Hreach|]. split; [reflexivity|].
  exact (proj1 (experience_buffer_rows_keep_their_keys
                  (RS := tape_random_state) corridor 0.5 0.5 0.25 _ Hreach)).
Defined.

(** The scenario of the specification: three real steps in [two_state]
    without planning, under [alpha = gamma = 0.5], raise [Q[0,0]] from 0 to
    0.5, 0.75 and 0.875 and log three times [(0, 0, 1, 1)]; the performance
    is 1, 2, 3. *)
Example two_state_three_steps :
  simulate two_state 0.5 0.5 0.25 3 true None blank [0; 0; 0]
  = Some ({| Q := [ [0.875]; [0] ]%float;
             experience_buffer := [ (0, 0, 1%Z, 1); (1, 0, 0%Z, 1) ];
             action_count := [ [0]; [3] ]%Z;
             history := [ (0, 0, 1%float, 1); (0, 0, 1%float, 1);
                          (0, 0, 1%float, 1) ];
             action_taken := [ [0]; [0] ]%float;
             self_s := 0 |}, []).
Proof. reflexivity. Qed.

Example two_state_performance :
  (get_performace ∘ fst)
    <$> simulate two_state 0.5 0.5 0.25 3 true None blank [0; 0; 0]
  = Some [1; 2; 3]%float.
Proof. reflexivity. Qed.

(** On the all-zero row a reset leaves, the action is the one drawn. *)
Example corridor_fresh_policy_draws :
  _policy corridor_fresh 0 [5; 2] = Some (1, [2]).
Proof. reflexivity. Qed.

(** Four real steps in [corridor] with two planning updates each: the
    reward one half of the pair (0, 0) is in the history, and 0 in the
    experience buffer. *)
Example corridor_four_steps :
  (λ st : Agent * list nat,
     (history st.1, experience_buffer st.1 !! 0, action_count st.1))
    <$> simulate corridor 0.5 0.5 0.25 4 true (Some 2%Z) blank
          [0; 1; 0; 1; 0; 0; 0; 0; 1; 1; 0; 0; 0; 0; 0; 3; 4; 5; 6; 7; 8; 9]
  = Some ([ (0, 0, 0.5%float, 0); (0, 1, 0%float, 0);
            (0, 0, 0.5%float, 0); (0, 0, 0.5%float, 0) ],
          Some (0, 0, 0%Z, 0),
          [ [0; 2]; [4; 4]; [4; 4] ]%Z).
Proof. reflexivity. Qed.

(** X1: four trials in [corridor] with two planning updates each. *)
Lemma simulate_well_formed_witness :
  wf_env (RS := tape_random_state) corridor ∧
  start_ok corridor true blank ∧
  ∃ st', simulate corridor 0.5 0.5 0.25 4 true (Some 2%Z) blank
           [0; 1; 0; 1; 0; 0; 0; 0; 1; 1; 0; 0; 0; 0; 0; 3; 4; 5; 6; 7; 8; 9]
         = Some st' ∧ wf_agent corridor st'.1.
Proof.
  split; [exact corridor_wf|]. split; [by left|].
  exact (simulate_keeps_the_tables_well_formed corridor 0.5 0.5 0.25 4 true
           (Some 2%Z) blank
           [0; 1; 0; 1; 0; 0; 0; 0; 1; 1; 0; 0; 0; 0; 0; 3; 4; 5; 6; 7; 8; 9]
           corridor_wf (or_introl eq_refl)).
Defined.

(** X2: after the same run the row of the pair (0, 0) is its last logged
    transition, the reward one half cast to 0, and the row of the pair
    (1, 1), never chosen, is the self-loop of the reset. *)
Lemma experience_buffer_last_transition_witness :
  wf_env (RS := tape_random_state) corridor ∧
  ∃ st', simulate corridor 0.5 0.5 0.25 4 true (Some 2%Z) blank
           [0; 1; 0; 1; 0; 0; 0; 0; 1; 1; 0; 0; 0; 0; 0; 3; 4; 5; 6; 7; 8; 9]
         = Some st' ∧
         history st'.1 = [ (0, 0, 0.5%float, 0); (0, 1, 0%float, 0);
                           (0, 0, 0.5%float, 0); (0, 0, 0.5%float, 0) ] ∧
         experience_buffer st'.1 !! (0 * num_actions corridor + 0)
         = Some (0, 0, 0%Z, 0) ∧
         experience_buffer st'.1 !! (1 * num_actions corridor + 1)
         = Some (1, 1, 0%Z, 1).
Proof.
  split; [exact corridor_wf|].
  destruct (experience_buffer_holds_last_logged_transition corridor
              0.5 0.5 0.25 4 true (Some 2%Z) blank
              [0; 1; 0; 1; 0; 0; 0; 0; 1; 1; 0; 0; 0; 0; 0; 3; 4; 5; 6; 7; 8; 9]
              corridor_wf (or_introl eq_refl))
    as (st' & Hsim & Hrows).
  exists st'. split; [exact Hsim|].
  assert (Hh : history st'.1 = [ (0, 0, 0.5%float, 0); (0, 1, 0%float, 0);
                                 (0, 0, 0.5%float, 0); (0, 0, 0.5%float, 0) ]).
  { vm_compute in Hsim. by injection Hsim as <-. }
  split; [exact Hh|]. split.
  - destruct (proj1 (Hrows 0 0 ltac:(simpl; lia) ltac:(simpl; lia))
                [ (0, 0, 0.5%float, 0); (0, 1, 0%float, 0);
                  (0, 0, 0.5%float, 0) ]
                0.5%float 0 [] Hh ltac:(constructor)) as (z & Hz & Hrow).
    vm_compute in Hz. injection Hz as <-. exact Hrow.
  - apply (proj2 (Hrows 1 1 ltac:(simpl; lia) ltac:(simpl; lia))).
    rewrite Hh. repeat constructor; intros [? ?]; simpl in *; lia.
Defined.

(** X3: three trials in [two_state], whose every step reaches the goal. *)
Lemma never_in_goal_witness :
  wf_env (RS := tape_random_state) two_state ∧
  start_state two_state ≠ goal_state two_state ∧
  ∃ st', simulate two_state 0.5 0.5 0.25 3 true (Some 2%Z) blank
           [0; 1; 0; 1; 0; 0; 0; 0] = Some st' ∧
         self_s st'.1 ≠ goal_state two_state ∧
         Forall (λ row : HistoryRow, row.1.1.1 ≠ goal_state two_state)
                (history st'.1).
Proof.
  split; [exact two_state_wf|]. split; [simpl; lia|].
  exact (simulate_never_acts_in_the_goal_state two_state 0.5 0.5 0.25 3
           (Some 2%Z) blank [0; 1; 0; 1; 0; 0; 0; 0] two_state_wf
           ltac:(simpl; lia)).
Defined.

(** X4: three trials in [two_state] without planning leave the value of the
    goal state at 0. *)
Lemma unchosen_values_witness :
  wf_env (RS := tape_random_state) two_state ∧
  ∃ st', simulate two_state 0.5 0.5 0.25 3 true None blank [0; 0; 0]
         = Some st' ∧
         Np.get2 (Q st'.1) (goal_state two_state) 0 = Some 0%float.
Proof.
  split; [exact two_state_wf|].
  destruct (values_of_unchosen_pairs_stay_zero two_state 0.5 0.5 0.25 3
              blank [0; 0; 0] two_state_wf)
    as (st' & Hsim & _ & Hgoal).
  exists st'. split; [exact Hsim|].
  apply Hgoal; simpl; lia.
Defined.

(** X10: three trials in [two_state]. *)
Lemma counter_range_witness :
  wf_env (RS := tape_random_state) two_state ∧ (3 < 2 ^ 63)%Z ∧
  ∃ st', simulate two_state 0.5 0.5 0.25 3 true None blank [0; 0; 0]
         = Some st' ∧
         length (history st'.1) = 3 ∧
         ∃ c, Np.get2 (action_count st'.1) 1 0 = Some c ∧ (0 ≤ c ≤ 3)%Z.
Proof.
  split; [exact two_state_wf|]. split; [lia|].
  destruct (recency_counters_stay_within_the_step_count two_state
              0.5 0.5 0.25 3 None blank [0; 0; 0] two_state_wf ltac:(lia))
    as (st' & Hsim & Hlen & Hc).
  exists st'. split; [exact Hsim|]. split; [exact Hlen|].
  destruct (Hc 1 0 ltac:(simpl; lia) ltac:(simpl; lia)) as (c & Hget & Hrange).
  exists c. split; [exact Hget|]. rewrite Hlen in Hrange. simpl in Hrange. lia.
Defined.

(** The stay probabilities of a history in which every kind of trial occurs:
    five trials, the first four of the four kinds, with stays after the two
    rewarded ones. *)
Example stay_probabilities_of_five_trials :
  TwoStep.get_stay_probabilities
    [ (0, 1, 1); (0, 2, 1); (0, 1, 0); (1, 1, 0); (0, 1, 0) ]%Z
  = Some [1; 1; 0; 0]%float.
Proof. reflexivity. Qed.

Example stay_probabilities_of_four_trials :
  TwoStep.get_stay_probabilities
    [ (0, 1, 1); (0, 2, 1); (0, 1, 0); (1, 1, 0) ]%Z
  = None.
Proof. reflexivity. Qed.

(** X14: the policy in state 2 of [corridor] right after a reset. *)
Lemma policy_after_reset_witness :
  reset corridor blank = Some corridor_fresh ∧
  2 < num_states corridor ∧ 0 < num_actions corridor ∧
  _policy corridor_fresh 2 [5; 2] = Some (1, [2]).
Proof.
  split; [reflexivity|]. split; [simpl; lia|]. split; [simpl; lia|].
  exact (proj1 (policy_draws_in_every_state_after_reset corridor blank
                  corridor_fresh 2 [5; 2] eq_refl ltac:(simpl; lia)
                  ltac:(simpl; lia))).
Defined.
